(** * Authenticated API access layer of the portfolio dashboard

    Shallow embedding of the transport/codec layer ([api/client]:
    [snakeToCamel], [camelToSnake], [keysToCamel], [keysToSnake],
    [getAuthHeaders], [apiClient], [api]) and of the session lifecycle
    manager ([AuthProvider]: [clearAuth], [restoreSession], [signIn],
    [signOut]), with the properties the specification states about them. *)

From Stdlib Require Import Ascii String ZArith List Lia.
From stdpp Require Import base option list strings gmap pretty.

Open Scope Z_scope.
Set Warnings "-register-all".

(* ===================================================================== *)
(** ** Characters and the two key-casing rewrites *)
(* ===================================================================== *)

Module Casing.

(** The regular expressions have neither the [i] nor the [u] flag, so
  [[a-z]] and [[A-Z]] are the 26 ASCII letters; every other code unit
  (in particular every byte of a multi-byte character) is copied. *)
Definition is_lower (c : ascii) : bool :=
(97 <=? N_of_ascii c)%N && (N_of_ascii c <=? 122)%N.

Definition is_upper (c : ascii) : bool :=
(65 <=? N_of_ascii c)%N && (N_of_ascii c <=? 90)%N.

Definition is_underscore (c : ascii) : bool := (N_of_ascii c =? 95)%N.

(** [c.toUpperCase()] and [c.toLowerCase()], used only on a letter matched
  by the corresponding class. *)
Definition toUpperCase (c : ascii) : ascii :=
if is_lower c then ascii_of_N (N_of_ascii c - 32) else c.

Definition toLowerCase (c : ascii) : ascii :=
if is_upper c then ascii_of_N (N_of_ascii c + 32) else c.

(** [s.replace(/_([a-z])/g, (_, c) => c.toUpperCase())]: scanning from the
  left, an underscore followed by a lowercase letter is replaced by the
  uppercase letter and the scan resumes after the pair; any other
  character is copied and the scan resumes at the next one. *)
Fixpoint snakeToCamel (s : string) : string :=
match s with
| EmptyString => EmptyString
| String c rest =>
    if is_underscore c then
      match rest with
      | String d rest' =>
          if is_lower d then String (toUpperCase d) (snakeToCamel rest')
          else String c (snakeToCamel rest)
      | EmptyString => String c EmptyString
      end
    else String c (snakeToCamel rest)
end.

(** [s.replace(/[A-Z]/g, (c) => `_${c.toLowerCase()}`)]. *)
Fixpoint camelToSnake (s : string) : string :=
match s with
| EmptyString => EmptyString
| String c rest =>
    if is_upper c then String "_" (String (toLowerCase c) (camelToSnake rest))
    else String c (camelToSnake rest)
end.

(** Key classes of the specification. A camelCase key has no underscore. *)
Fixpoint camel_key (s : string) : bool :=
match s with
| EmptyString => true
| String c rest => negb (is_underscore c) && camel_key rest
end.

(** A snake_case key has no uppercase letter and every underscore in it is
  followed by a lowercase letter (a single underscore then a letter). *)
Fixpoint snake_key (s : string) : bool :=
match s with
| EmptyString => true
| String c rest =>
    negb (is_upper c)
    && (if is_underscore c then
          match rest with
          | String d _ => is_lower d
          | EmptyString => false
          end
        else true)
    && snake_key rest
end.

Definition restricted_key (s : string) : bool := snake_key s || camel_key s.

(** [s] starts with a lowercase letter; [s] contains a snake_case word
    boundary (an underscore followed by a lowercase letter). *)
Definition starts_lower (s : string) : bool :=
  match s with
  | String d _ => is_lower d
  | EmptyString => false
  end.

(** An integer-like key: decimal digits only. *)
Definition is_digit (c : ascii) : bool :=
  (48 <=? N_of_ascii c)%N && (N_of_ascii c <=? 57)%N.

Fixpoint digits_only (s : string) : bool :=
  match s with
  | EmptyString => true
  | String c rest => is_digit c && digits_only rest
  end.

Fixpoint has_boundary (s : string) : bool :=
  match s with
  | EmptyString => false
  | String c rest => (is_underscore c && starts_lower rest) || has_boundary rest
  end.

End Casing.

Export Casing.

(* ===================================================================== *)
(** ** Runtime values *)
(* ===================================================================== *)

(** What the walkers see as [unknown]: scalars, [Date] instances (opaque
    leaves), arrays and plain objects. An object is its list of own
    enumerable string-keyed properties in enumeration order, which is what
    [Object.entries] returns. Numeric leaves are integers, written in
    decimal by [String()]; a [Date] carries the text [String()] renders it
    as. Neither is inspected by the key walkers. *)
Inductive value : Type :=
  | VUndefined
  | VNull
  | VBool (b : bool)
  | VNum (n : Z)
  | VStr (s : string)
  | VDate (shown : string)
  | VArr (items : list value)
  | VObj (props : list (string * value)).

Definition entries := list (string * value).

(** Property definition on an object under construction: an existing key
    keeps its place and takes the new value, a new key goes last. *)
Fixpoint defineProperty (k : string) (v : value) (o : entries) : entries :=
  match o with
  | [] => [(k, v)]
  | (k', v') :: o' =>
      if bool_decide (k' = k) then (k', v) :: o'
      else (k', v') :: defineProperty k v o'
  end.

(** [Object.fromEntries(es)]: the properties are defined one after the
    other on a fresh object, so of two entries with one key the later one
    gives the value.  (Integer-like keys, which an engine enumerates first,
    are left where they were defined: both rewrites map such a key to
    itself and no other key to one, see [snakeToCamel_digits] and
    [camelToSnake_digits].) *)
Definition buildFrom (es acc : entries) : entries :=
  fold_left (fun o kv => defineProperty (fst kv) (snd kv) o) es acc.

Definition fromEntries (es : entries) : entries := buildFrom es [].

(** [keysToCamel]: arrays are mapped, plain objects are rebuilt from their
    rewritten entries, everything else (scalars, [null], [Date]) is
    returned as it is. *)
Fixpoint keysToCamel (obj : value) : value :=
  match obj with
  | VArr items => VArr (map keysToCamel items)
  | VObj props =>
      VObj (fromEntries
              (map (fun '(k, v) => (snakeToCamel k, keysToCamel v)) props))
  | _ => obj
  end.

Fixpoint keysToSnake (obj : value) : value :=
  match obj with
  | VArr items => VArr (map keysToSnake items)
  | VObj props =>
      VObj (fromEntries
              (map (fun '(k, v) => (camelToSnake k, keysToSnake v)) props))
  | _ => obj
  end.

(** Structures "built only from plain objects, arrays and scalars": no
    [Date] leaf, and (as for every object) no key twice in one object.
    [keys_ok P] additionally asks [P] of every key at every depth. *)
Fixpoint keys_ok (P : string -> bool) (x : value) : bool :=
  match x with
  | VDate _ => false
  | VArr items => forallb (keys_ok P) items
  | VObj props =>
      forallb (fun '(k, v) => P k && keys_ok P v) props
      && bool_decide (NoDup (map fst props))
  | _ => true
  end.

(** [ToBoolean]. *)
Definition truthy (v : value) : bool :=
  match v with
  | VUndefined | VNull => false
  | VBool b => b
  | VNum n => negb (n =? 0)
  | VStr s => negb (bool_decide (s = ""))
  | VDate _ | VArr _ | VObj _ => true
  end.

(** [String(v)], the conversion [localStorage.setItem] and the [Error]
    constructor apply to their argument. *)
Fixpoint ToString (v : value) : string :=
  match v with
  | VUndefined => "undefined"
  | VNull => "null"
  | VBool true => "true"
  | VBool false => "false"
  | VNum n => pretty n
  | VStr s => s
  | VDate shown => shown
  | VArr items =>
      String.concat ","
        (map (fun x => match x with
                       | VUndefined | VNull => ""
                       | _ => ToString x
                       end) items)
  | VObj _ => "[object Object]"
  end.

(** The built-in exceptions this code can meet. *)
Inductive exn_class := SyntaxError | TypeError.

Fixpoint lookupProperty (name : string) (o : entries) : option value :=
  match o with
  | [] => None
  | (k, v) :: o' => if bool_decide (k = name) then Some v else lookupProperty name o'
  end.

(** Reading a named property. On [undefined] and [null] the access throws
    a [TypeError]; on an object it is the own property or [undefined]; the
    names this program reads ([data], [error], [code], [message], [id],
    [user], [email], [access_token], [refresh_token]) are defined on no
    prototype, so on any other value the result is [undefined]. *)
Definition getProp (v : value) (name : string) : exn_class + value :=
  match v with
  | VUndefined | VNull => inl TypeError
  | VObj props => inr (default VUndefined (lookupProperty name props))
  | _ => inr VUndefined
  end.

(** Optional chaining [v?.name]. *)
Definition getPropOpt (v : value) (name : string) : value :=
  match getProp v name with
  | inl _ => VUndefined
  | inr x => x
  end.

(** [a || b] on values. *)
Definition orElse (a b : value) : value := if truthy a then a else b.

(* ===================================================================== *)
(** ** The world the code runs in *)
(* ===================================================================== *)

(** [class ApiError extends Error]: [super(message)] stores [String(message)]
    (the empty string for [undefined]), [status] and [code] are stored as
    given. *)
Module ApiError.
Record t := new_raw { status : Z; code : value; message : string }.
Definition new (status : Z) (code message : value) : t :=
  {| status := status;
     code := code;
     message := match message with
                | VUndefined => ""
                | _ => ToString message
                end |}.
End ApiError.

(** Whatever a promise of this program can reject with. *)
Inductive exn :=
  | ExApiError (e : ApiError.t)
  | ExOther (c : exn_class).

Inductive outcome (A : Type) :=
  | Resolved (a : A)
  | Rejected (e : exn).
Arguments Resolved {A} a.
Arguments Rejected {A} e.

Inductive http_method := GET | POST | PUT | PATCH | DELETE.

(** The arguments of one [fetch] call. [body] is the value handed to
    [JSON.stringify], absent when the call passes [undefined]. *)
Module Request.
Record t := make {
  url : string;
  method : http_method;
  headers : gmap string string;
  body : option value
}.
End Request.

(** What the code reads of a [Response]: [json] is what [response.json()]
    resolves with, [None] when it rejects (the body is not JSON). *)
Module Response.
Record t := make {
  status : Z;
  statusText : string;
  json : option value
}.
Definition ok (r : t) : bool := (200 <=? status r) && (status r <=? 299).
End Response.

Inductive fetch_result :=
  | FetchRejected
  | FetchResolved (r : Response.t).

(** [RequestOptions]; an absent [body] is [VUndefined]. *)
Record RequestOptions := {
  opt_method : option http_method;
  opt_body : value;
  opt_headers : option (gmap string string)
}.

Definition no_options : RequestOptions :=
  {| opt_method := None; opt_body := VUndefined; opt_headers := None |}.

(** Mutable state: [localStorage], the two React state cells of
    [AuthProvider], and the requests issued so far (oldest first). *)
Record world := {
  localStorage : gmap string string;
  user : value;
  loading : bool;
  sent : list Request.t
}.

Definition initial_world (ls : gmap string string) : world :=
  {| localStorage := ls; user := VNull; loading := true; sent := [] |}.

(** Asynchronous code as a state-and-exception computation. *)
Definition M (A : Type) : Type := world -> outcome A * world.

Definition ret {A} (a : A) : M A := fun w => (Resolved a, w).
Definition throw {A} (e : exn) : M A := fun w => (Rejected e, w).
Definition bind {A B} (m : M A) (k : A -> M B) : M B :=
  fun w => match m w with
           | (Resolved a, w') => k a w'
           | (Rejected e, w') => (Rejected e, w')
           end.
Definition tryCatch {A} (m : M A) (handler : exn -> M A) : M A :=
  fun w => match m w with
           | (Resolved a, w') => (Resolved a, w')
           | (Rejected e, w') => handler e w'
           end.
Definition tryFinally {A} (m : M A) (final : M unit) : M A :=
  fun w => match m w with
           | (r, w') =>
               match final w' with
               | (Resolved _, w'') => (r, w'')
               | (Rejected e, w'') => (Rejected e, w'')
               end
           end.
Definition lift {A} (r : exn_class + A) : M A :=
  match r with
  | inl c => throw (ExOther c)
  | inr a => ret a
  end.

Declare Scope js_scope.
Delimit Scope js_scope with js.
Notation "x <- m ;; k" := (bind m (fun x => k))
  (at level 100, m at next level, right associativity) : js_scope.
Notation "m ;;; k" := (bind m (fun _ => k))
  (at level 100, right associativity) : js_scope.
Open Scope js_scope.

Definition getItem (k : string) : M (option string) :=
  fun w => (Resolved (localStorage w !! k), w).
Definition setItem (k : string) (v : value) : M unit :=
  fun w => (Resolved tt,
            {| localStorage := <[k := ToString v]> (localStorage w);
               user := user w; loading := loading w; sent := sent w |}).
Definition removeItem (k : string) : M unit :=
  fun w => (Resolved tt,
            {| localStorage := delete k (localStorage w);
               user := user w; loading := loading w; sent := sent w |}).
Definition setUser (u : value) : M unit :=
  fun w => (Resolved tt,
            {| localStorage := localStorage w;
               user := u; loading := loading w; sent := sent w |}).
Definition setLoading (b : bool) : M unit :=
  fun w => (Resolved tt,
            {| localStorage := localStorage w;
               user := user w; loading := b; sent := sent w |}).

(** A [string | null] read from storage, as a value. *)
Definition ofItem (o : option string) : value :=
  match o with
  | Some s => VStr s
  | None => VNull
  end.

(* ===================================================================== *)
(** ** Transport/codec layer and session lifecycle manager *)
(* ===================================================================== *)

Section Runtime.

(** [import.meta.env.VITE_API_URL || ""]. *)
Variable API_BASE_URL : string.

(** The network: what the [n]-th [fetch] of a run (counting from 0)
    settles with, given its arguments. *)
Variable fetch : nat -> Request.t -> fetch_result.

(** The flag [cancelled] of the effect that runs [restoreSession], as
    read once [n] transport calls have settled; the effect's cleanup
    sets it. *)
Variable cancelled : nat -> bool.

Definition getAuthHeaders : M (gmap string string) :=
  token <- getItem "access_token" ;;
  if negb (truthy (ofItem token)) then ret ∅
  else ret {[ "Authorization" := "Bearer " +:+ ToString (ofItem token) ]}.

Definition callFetch (req : Request.t) : M Response.t :=
  fun w =>
    let w' := {| localStorage := localStorage w; user := user w;
                 loading := loading w; sent := sent w ++ [req] |} in
    match fetch (length (sent w)) req with
    | FetchRejected => (Rejected (ExOther TypeError), w')
    | FetchResolved r => (Resolved r, w')
    end.

Definition responseJson (r : Response.t) : M value :=
  match Response.json r with
  | Some j => ret j
  | None => throw (ExOther SyntaxError)
  end.

Definition apiClient (endpoint : string) (options : RequestOptions) : M value :=
  let method := default GET (opt_method options) in
  let body := opt_body options in
  let headers := default ∅ (opt_headers options) in
  response <-
    tryCatch
      (auth <- getAuthHeaders ;;
       callFetch
         {| Request.url := API_BASE_URL +:+ endpoint;
            Request.method := method;
            Request.headers :=
              headers ∪ (auth ∪ {[ "Content-Type" := "application/json" ]});
            Request.body :=
              if truthy body then Some (keysToSnake body) else None |})
      (fun _ =>
         throw (ExApiError
                  (ApiError.new 0 (VStr "NETWORK_ERROR")
                     (VStr "Unable to connect to server")))) ;;
  if negb (Response.ok response) then
    errorBody <- tryCatch (responseJson response) (fun _ => ret (VObj [])) ;;
    error <- lift (getProp errorBody "error") ;;
    let code := orElse (getPropOpt error "code") (VStr "UNKNOWN") in
    error' <- lift (getProp errorBody "error") ;;
    let message :=
      orElse (getPropOpt error' "message")
             (VStr (Response.statusText response)) in
    throw (ExApiError (ApiError.new (Response.status response) code message))
  else if Response.status response =? 204 then ret VUndefined
  else
    json <- responseJson response ;;
    d <- lift (getProp json "data") ;;
    data <- (match d with
             | VUndefined => ret json
             | _ => lift (getProp json "data")
             end) ;;
    ret (keysToCamel data).

(** The [api] object. *)
Definition api_get (endpoint : string) : M value :=
  apiClient endpoint no_options.
Definition api_post (endpoint : string) (body : value) : M value :=
  apiClient endpoint
    {| opt_method := Some POST; opt_body := body; opt_headers := None |}.
Definition api_patch (endpoint : string) (body : value) : M value :=
  apiClient endpoint
    {| opt_method := Some PATCH; opt_body := body; opt_headers := None |}.
Definition api_delete (endpoint : string) : M value :=
  apiClient endpoint
    {| opt_method := Some DELETE; opt_body := VUndefined; opt_headers := None |}.

Definition clearAuth : M unit :=
  removeItem "access_token" ;;;
  removeItem "refresh_token" ;;;
  removeItem "user_email".

Definition unlessCancelled (m : M unit) : M unit :=
  fun w => if negb (cancelled (length (sent w))) then m w else (Resolved tt, w).

(** [err instanceof ApiError && err.status === 401]. *)
Definition is_401 (err : exn) : bool :=
  match err with
  | ExApiError e => ApiError.status e =? 401
  | ExOther _ => false
  end.

Definition restoreSession : M unit :=
  token <- getItem "access_token" ;;
  if negb (truthy (ofItem token)) then setLoading false
  else
    stored <- getItem "user_email" ;;
    let email := orElse (ofItem stored) (VStr "") in
    tryFinally
      (tryCatch
         (profile <- api_get "/api/auth/profile" ;;
          unlessCancelled
            (id <- lift (getProp profile "id") ;;
             setUser (VObj [("id", id); ("email", email)])))
         (fun err =>
            if is_401 err then
              item <- getItem "refresh_token" ;;
              let refreshToken := ofItem item in
              if truthy refreshToken then
                tryCatch
                  (data <- api_post "/api/auth/refresh"
                             (VObj [("refreshToken", refreshToken)]) ;;
                   access <- lift (getProp data "access_token") ;;
                   setItem "access_token" access ;;;
                   refresh <- lift (getProp data "refresh_token") ;;
                   setItem "refresh_token" refresh ;;;
                   profile <- api_get "/api/auth/profile" ;;
                   unlessCancelled
                     (id <- lift (getProp profile "id") ;;
                      setUser (VObj [("id", id); ("email", email)])))
                  (fun _ => clearAuth)
              else clearAuth
            else
              unlessCancelled
                (setUser (VObj [("id", VStr "unknown"); ("email", email)]))))
      (unlessCancelled (setLoading false)).

Definition signIn (email password : string) : M unit :=
  data <- api_post "/api/auth/login"
            (VObj [("email", VStr email); ("password", VStr password)]) ;;
  access <- lift (getProp data "access_token") ;;
  setItem "access_token" access ;;;
  refresh <- lift (getProp data "refresh_token") ;;
  setItem "refresh_token" refresh ;;;
  u <- lift (getProp data "user") ;;
  mail <- lift (getProp u "email") ;;
  setItem "user_email" mail ;;;
  u' <- lift (getProp data "user") ;;
  setUser u'.


Definition signOut : M unit :=
  tryCatch (api_post "/api/auth/logout" VUndefined ;;; ret tt)
           (fun _ => ret tt) ;;;
  clearAuth ;;;
  setUser VNull.

End Runtime.

(** The request [apiClient] hands to [fetch] when storage is [ls]: used to
    say what the network answered to it. *)
Definition outgoing (API_BASE_URL endpoint : string) (options : RequestOptions)
    (ls : gmap string string) : Request.t :=
  {| Request.url := API_BASE_URL +:+ endpoint;
     Request.method := default GET (opt_method options);
     Request.headers :=
       default ∅ (opt_headers options)
       ∪ (match fst (getAuthHeaders (initial_world ls)) with
          | Resolved auth => auth
          | Rejected _ => ∅
          end ∪ {[ "Content-Type" := "application/json" ]});
     Request.body :=
       if truthy (opt_body options) then Some (keysToSnake (opt_body options))
       else None |}.

(** [errorBody.error?.field], as read of an error response. *)
Definition declared (r : Response.t) (field : string) : value :=
  getPropOpt (getPropOpt (default (VObj []) (Response.json r)) "error") field.

(** The body of [r] parses as JSON exposing [error.code = c] and
    [error.message = m]. *)
Definition declares (r : Response.t) (c m : string) : Prop :=
  exists props eprops,
    Response.json r = Some (VObj props)
    /\ lookupProperty "error" props = Some (VObj eprops)
    /\ lookupProperty "code" eprops = Some (VStr c)
    /\ lookupProperty "message" eprops = Some (VStr m).

(* ===================================================================== *)
(** ** Concrete runs *)
(* ===================================================================== *)

Module Scenario.

Definition never (n : nat) : bool := false.
Definition always (n : nat) : bool := true.

(** A network in which every call gets the same answer. *)
Definition answer (r : Response.t) (n : nat) (req : Request.t) : fetch_result :=
  FetchResolved r.

Definition stored_session : gmap string string :=
  {[ "access_token" := "old-access";
     "refresh_token" := "old-refresh";
     "user_email" := "a@b.com" ]}.

(** Expired token, valid refresh: 401 on the profile, then the refresh
    endpoint's token pair, then the profile. *)
Definition expired_then_refreshed (n : nat) (req : Request.t) : fetch_result :=
  match n with
  | 0%nat => FetchResolved (Response.make 401 "Unauthorized" None)
  | 1%nat =>
      FetchResolved
        (Response.make 200 "OK"
           (Some (VObj [("access_token", VStr "new-access");
                        ("refresh_token", VStr "new-refresh")])))
  | _ => FetchResolved (Response.make 200 "OK" (Some (VObj [("id", VStr "u1")])))
  end.

(** The login endpoint's answer of section 6 of the specification. *)
Definition login_response : Response.t :=
  Response.make 200 "OK"
    (Some (VObj [("access_token", VStr "new-access");
                 ("refresh_token", VStr "new-refresh");
                 ("user", VObj [("id", VStr "u1"); ("email", VStr "a@b.com")])])).

(** A 2xx answer whose body is not JSON, and one whose body is [null]. *)
Definition html_page : Response.t := Response.make 200 "OK" None.
Definition null_body : Response.t := Response.make 200 "OK" (Some VNull).
Definition null_error_body : Response.t :=
  Response.make 500 "Internal Server Error" (Some VNull).

(** An error answer declaring an empty code. *)
Definition empty_code : Response.t :=
  Response.make 400 "Bad Request"
    (Some (VObj [("error", VObj [("code", VStr ""); ("message", VStr "Bad")])])).

Definition declared_error : Response.t :=
  Response.make 404 "Not Found"
    (Some (VObj [("error", VObj [("code", VStr "PORTFOLIO_NOT_FOUND");
                                  ("message", VStr "No such portfolio")])])).

Definition server_down : Response.t :=
  Response.make 500 "Internal Server Error" None.

Definition enveloped : Response.t :=
  Response.make 200 "OK"
    (Some (VObj [("success", VBool true); ("data", VObj [("a", VNum 1)])])).
Definition bare : Response.t :=
  Response.make 200 "OK" (Some (VObj [("a", VNum 1)])).

(** A caller that brings its own [Authorization] header. *)
Definition own_authorization : RequestOptions :=
  {| opt_method := None; opt_body := VUndefined;
     opt_headers := Some {[ "Authorization" := "Basic dXNlcjpwdw==" ]} |}.

Definition sample_camel_payload : value :=
  VObj [("baseCurrency", VStr "KWD");
        ("holdings", VArr [VObj [("assetClass", VStr "equity");
                                 ("purchasePrice", VNum 12)];
                           VNull]);
        ("id", VStr "p1")].
End Scenario.

(* ===================================================================== *)
(** ** Keys at every depth *)
(* ===================================================================== *)

(** [s] has no letter of [[A-Z]]. *)
Fixpoint no_upper (s : string) : bool :=
  match s with
  | EmptyString => true
  | String c rest => negb (is_upper c) && no_upper rest
  end.

(** [P] holds of every key of every object inside [x]. *)
Fixpoint every_key (P : string -> bool) (x : value) : bool :=
  match x with
  | VArr items => forallb (every_key P) items
  | VObj props => forallb (fun '(k, v) => P k && every_key P v) props
  | _ => true
  end.

(** No object inside [x] lists a key twice. *)
Fixpoint distinct_keys (x : value) : bool :=
  match x with
  | VArr items => forallb distinct_keys items
  | VObj props =>
      bool_decide (NoDup (map fst props))
      && forallb (fun '(k, v) => distinct_keys v) props
  | _ => true
  end.

(* ===================================================================== *)
(** ** Resource wrappers that build a query string *)
(* ===================================================================== *)

(** [URLSearchParams]: an ordered list of name/value pairs. [toString] is
    the application/x-www-form-urlencoded serializer: a space becomes [+],
    the bytes of [[A-Za-z0-9*-._]] are kept, every other byte is written as
    [%XX] with uppercase hexadecimal digits; pairs are written [name=value]
    and joined by [&]. *)
Module URLSearchParams.

Definition t := list (string * string).

Definition empty : t := [].

(** [set(name, value)]: the first pair called [name] takes the value and
    the other pairs called [name] are removed; without such a pair the new
    one is appended. *)
Fixpoint set (name value : string) (p : t) : t :=
  match p with
  | [] => [(name, value)]
  | (n, v) :: rest =>
      if bool_decide (n = name)
      then (n, value) :: filter (fun nv => negb (bool_decide (fst nv = name))) rest
      else (n, v) :: set name value rest
  end.

Definition is_alnum (c : ascii) : bool :=
  is_digit c || is_upper c || is_lower c.

Definition kept (c : ascii) : bool :=
  is_alnum c
  || (N_of_ascii c =? 42)%N || (N_of_ascii c =? 45)%N
  || (N_of_ascii c =? 46)%N || (N_of_ascii c =? 95)%N.

Definition hexDigit (n : N) : ascii :=
  if (n <? 10)%N then ascii_of_N (48 + n) else ascii_of_N (55 + n).

Definition encodeByte (c : ascii) : string :=
  if (N_of_ascii c =? 32)%N then "+"
  else if kept c then String c EmptyString
  else String "%" (String (hexDigit (N_of_ascii c / 16))
                     (String (hexDigit (N_of_ascii c mod 16)) EmptyString)).

Fixpoint encode (s : string) : string :=
  match s with
  | EmptyString => EmptyString
  | String c rest => encodeByte c +:+ encode rest
  end.

Definition toString (p : t) : string :=
  String.concat "&" (map (fun '(n, v) => encode n +:+ "=" +:+ encode v) p).

End URLSearchParams.

(** An optional string or number argument, as the value a truthiness test
    sees. *)
Definition ofString (o : option string) : value :=
  match o with
  | Some s => VStr s
  | None => VUndefined
  end.

Definition ofNumber (o : option Z) : value :=
  match o with
  | Some n => VNum n
  | None => VUndefined
  end.

(** The [params] argument of [transactionsApi.list], of [holdingsApi.list]
    and of [marketDataApi.getHistory]; an absent field is [None]. *)
Record TransactionQuery := {
  holdingId : option string;
  type : option string;
  startDate : option string;
  endDate : option string;
  page : option Z;
  pageSize : option Z
}.

Record HoldingQuery := {
  assetClass : option string;
  active : option bool
}.

Record HistoryQuery := {
  source : option string;
  from : option string;
  to : option string
}.

Section Wrappers.

Variable API_BASE_URL : string.
Variable fetch : nat -> Request.t -> fetch_result.

(** [if (v) searchParams.set(name, String(v))] *)
Definition setIfTruthy (name : string) (v : value) (p : URLSearchParams.t)
    : URLSearchParams.t :=
  if truthy v then URLSearchParams.set name (ToString v) p else p.

(** [${qs ? `?${qs}` : ""}] *)
Definition querySuffix (qs : string) : string :=
  if truthy (VStr qs) then "?" +:+ qs else "".

Definition transactionsApi_list (portfolioId : string)
    (params : option TransactionQuery) : M value :=
  let searchParams := URLSearchParams.empty in
  let searchParams :=
    setIfTruthy "holdingId" (ofString (params ≫= holdingId)) searchParams in
  let searchParams := setIfTruthy "type" (ofString (params ≫= type)) searchParams in
  let searchParams :=
    setIfTruthy "startDate" (ofString (params ≫= startDate)) searchParams in
  let searchParams :=
    setIfTruthy "endDate" (ofString (params ≫= endDate)) searchParams in
  let searchParams := setIfTruthy "page" (ofNumber (params ≫= page)) searchParams in
  let searchParams :=
    setIfTruthy "pageSize" (ofNumber (params ≫= pageSize)) searchParams in
  let qs := URLSearchParams.toString searchParams in
  api_get API_BASE_URL fetch
    ("/api/portfolios/" +:+ portfolioId +:+ "/transactions" +:+ querySuffix qs).

Definition holdingsApi_list (portfolioId : string)
    (params : option HoldingQuery) : M value :=
  let searchParams := URLSearchParams.empty in
  let searchParams :=
    setIfTruthy "assetClass" (ofString (params ≫= assetClass)) searchParams in
  let searchParams :=
    match params ≫= active with
    | Some b => URLSearchParams.set "active" (ToString (VBool b)) searchParams
    | None => searchParams
    end in
  let qs := URLSearchParams.toString searchParams in
  api_get API_BASE_URL fetch
    ("/api/portfolios/" +:+ portfolioId +:+ "/holdings" +:+ querySuffix qs).

Definition marketDataApi_getHistory (symbol : string)
    (params : option HistoryQuery) : M value :=
  let searchParams := URLSearchParams.empty in
  let searchParams :=
    setIfTruthy "source" (ofString (params ≫= source)) searchParams in
  let searchParams := setIfTruthy "from" (ofString (params ≫= from)) searchParams in
  let searchParams := setIfTruthy "to" (ofString (params ≫= to)) searchParams in
  let qs := URLSearchParams.toString searchParams in
  api_get API_BASE_URL fetch
    ("/api/market/history/" +:+ symbol +:+ querySuffix qs).

End Wrappers.

(** How often the character [c] occurs in [s]. *)
Fixpoint occurrences (c : ascii) (s : string) : nat :=
  match s with
  | EmptyString => 0%nat
  | String d rest =>
      ((if bool_decide (d = c) then 1 else 0) + occurrences c rest)%nat
  end.

(** How many of the optional arguments pass a truthiness test. *)
Definition given (vs : list value) : nat := length (List.filter truthy vs).

(** The addresses of the requests a computation has added to the log. *)
Definition newUrls (before after : world) : list string :=
  map Request.url (drop (length (sent before)) (sent after)).

Module Sample.

Definition offline (n : nat) (req : Request.t) : fetch_result := FetchRejected.

Definition no_content : Response.t := Response.make 204 "No Content" None.

Definition unauthorized : Response.t := Response.make 401 "Unauthorized" None.

Definition profile : Response.t :=
  Response.make 200 "OK"
    (Some (VObj [("id", VStr "u1"); ("display_name", VNull);
                 ("base_currency", VStr "KWD")])).

(** The refresh token is rejected too. *)
Definition expired_for_good (n : nat) (req : Request.t) : fetch_result :=
  FetchResolved unauthorized.

(** A login answer without the [user] field. *)
Definition login_without_user : Response.t :=
  Response.make 200 "OK"
    (Some (VObj [("access_token", VStr "new-access");
                 ("refresh_token", VStr "new-refresh")])).

Definition only_access : gmap string string :=
  {[ "access_token" := "old-access"; "theme" := "dark" ]}.

Definition with_theme : gmap string string :=
  {[ "access_token" := "old-access";
     "refresh_token" := "old-refresh";
     "user_email" := "a@b.com";
     "theme" := "dark" ]}.

Definition snake_payload : value :=
  VObj [("base_currency", VStr "KWD");
        ("holdings", VArr [VObj [("asset_class", VStr "equity");
                                 ("avg_cost_price", VNum 12)];
                           VNull]);
        ("id", VStr "p1")].

Definition colliding : list (string * value) :=
  [("base_currency", VStr "KWD"); ("id", VStr "p1"); ("baseCurrency", VStr "USD")].

End Sample.

(* ===================================================================== *)
(** * Properties *)
(* ===================================================================== *)

(** ** Letters *)

Ltac ascii_cases c :=
  destruct c as [[] [] [] [] [] [] [] []];
  try discriminate; try reflexivity.

Lemma is_underscore_spec c : is_underscore c = true -> c = "_"%char.
Proof. ascii_cases c. Qed.

Lemma lower_not_upper c : is_lower c = true -> is_upper c = false.
Proof. ascii_cases c. Qed.

Lemma lower_not_underscore c : is_lower c = true -> is_underscore c = false.
Proof. ascii_cases c. Qed.

Lemma upper_not_underscore c : is_upper c = true -> is_underscore c = false.
Proof. ascii_cases c. Qed.

Lemma upper_not_lower c : is_upper c = true -> is_lower c = false.
Proof. ascii_cases c. Qed.

Lemma toUpperCase_upper c : is_lower c = true -> is_upper (toUpperCase c) = true.
Proof. ascii_cases c. Qed.

Lemma toLowerCase_lower c : is_upper c = true -> is_lower (toLowerCase c) = true.
Proof. ascii_cases c. Qed.

Lemma toLowerCase_toUpperCase c :
  is_lower c = true -> toLowerCase (toUpperCase c) = c.
Proof. ascii_cases c. Qed.

Lemma toUpperCase_toLowerCase c :
  is_upper c = true -> toUpperCase (toLowerCase c) = c.
Proof. ascii_cases c. Qed.

Lemma underscore_class :
  is_underscore "_" = true /\ is_upper "_" = false /\ is_lower "_" = false.
Proof. repeat split. Qed.

(** ** The two rewrites on one key *)

(** Induction on strings that gives the hypothesis for the tail and for
    the tail's tail, as [snakeToCamel] consumes one or two characters. *)
Lemma string_pair_ind (P : string -> Prop) :
  P EmptyString ->
  (forall c, P (String c EmptyString)) ->
  (forall c d s, P s -> P (String d s) -> P (String c (String d s))) ->
  forall s, P s.
Proof.
  intros H0 H1 H2 s.
  assert (P s /\ forall c, P (String c s)) as [Hs _]; [|exact Hs].
  induction s as [|d s [IHs IHc]]; split; auto.
Qed.

(** The defining equations, one per way a scan step can go. *)
Lemma snakeToCamel_pair d s :
  is_lower d = true ->
  snakeToCamel (String "_" (String d s)) = String (toUpperCase d) (snakeToCamel s).
Proof. intros Hd. cbn. by rewrite Hd. Qed.

Lemma snakeToCamel_lone d s :
  is_lower d = false ->
  snakeToCamel (String "_" (String d s)) = String "_" (snakeToCamel (String d s)).
Proof. intros Hd. cbn. by rewrite Hd. Qed.

Lemma snakeToCamel_copy c s :
  is_underscore c = false -> snakeToCamel (String c s) = String c (snakeToCamel s).
Proof. intros Hc. cbn. by rewrite Hc. Qed.

Lemma camelToSnake_split c s :
  is_upper c = true ->
  camelToSnake (String c s) = String "_" (String (toLowerCase c) (camelToSnake s)).
Proof. intros Hc. cbn. by rewrite Hc. Qed.

Lemma camelToSnake_copy c s :
  is_upper c = false -> camelToSnake (String c s) = String c (camelToSnake s).
Proof. intros Hc. cbn. by rewrite Hc. Qed.

(** Going to the wire convention forgets whether a boundary was written
    as an uppercase letter or as underscore-and-letter. *)
Lemma camelToSnake_snakeToCamel s :
  camelToSnake (snakeToCamel s) = camelToSnake s.
Proof.
  induction s as [|c|c d s IHs IHd] using string_pair_ind; [reflexivity| |].
  - cbn. destruct (is_underscore c); reflexivity.
  - destruct (is_underscore c) eqn:Hc.
    + apply is_underscore_spec in Hc as ->.
      rewrite (camelToSnake_copy "_") by done.
      destruct (is_lower d) eqn:Hd.
      * rewrite snakeToCamel_pair by done.
        rewrite camelToSnake_split by (by apply toUpperCase_upper).
        rewrite toLowerCase_toUpperCase by done.
        rewrite (camelToSnake_copy d) by (by apply lower_not_upper).
        by rewrite IHs.
      * rewrite snakeToCamel_lone by done.
        rewrite (camelToSnake_copy "_") by done. by rewrite IHd.
    + rewrite snakeToCamel_copy by done.
      destruct (is_upper c) eqn:Hu.
      * rewrite !(camelToSnake_split c) by done. by rewrite IHd.
      * rewrite !(camelToSnake_copy c) by done. by rewrite IHd.
Qed.

(** Coming back from the wire convention does the same. *)
Lemma snakeToCamel_camelToSnake s :
  snakeToCamel (camelToSnake s) = snakeToCamel s.
Proof.
  assert (Hone : forall c t, is_upper c = true ->
            snakeToCamel (camelToSnake (String c t))
            = String c (snakeToCamel (camelToSnake t))).
  { intros c t Hc. rewrite camelToSnake_split by done.
    rewrite snakeToCamel_pair by (by apply toLowerCase_lower).
    by rewrite toUpperCase_toLowerCase. }
  induction s as [|c|c d s IHs IHd] using string_pair_ind; [reflexivity| |].
  - destruct (is_upper c) eqn:Hc.
    + rewrite Hone by done. cbn. by rewrite (upper_not_underscore c).
    + by rewrite camelToSnake_copy.
  - destruct (is_upper c) eqn:Hc.
    + rewrite Hone by done. rewrite IHd.
      by rewrite (snakeToCamel_copy c) by (by apply upper_not_underscore).
    + rewrite camelToSnake_copy by done.
      destruct (is_underscore c) eqn:Hu.
      * apply is_underscore_spec in Hu as ->.
        destruct (is_lower d) eqn:Hd.
        -- rewrite (camelToSnake_copy d) by (by apply lower_not_upper).
           rewrite !snakeToCamel_pair by done. by rewrite IHs.
        -- rewrite (snakeToCamel_lone d s) by done. rewrite <- IHd.
           destruct (is_upper d) eqn:Hup.
           ++ rewrite camelToSnake_split by done.
              by rewrite (snakeToCamel_lone "_").
           ++ rewrite camelToSnake_copy by done.
              by rewrite (snakeToCamel_lone d).
      * rewrite !(snakeToCamel_copy c) by done. by rewrite IHd.
Qed.

Lemma snakeToCamel_camel_key s : camel_key s = true -> snakeToCamel s = s.
Proof.
  induction s as [|c s IH]; [done|]. cbn.
  intros [Hc Hs]%andb_true_iff. apply negb_true_iff in Hc. rewrite Hc.
  by rewrite IH.
Qed.

Lemma camelToSnake_snake_key s : snake_key s = true -> camelToSnake s = s.
Proof.
  induction s as [|c s IH]; [done|]. cbn [snake_key camelToSnake].
  intros [[Hc _]%andb_true_iff Hs]%andb_true_iff.
  apply negb_true_iff in Hc. rewrite Hc. by rewrite IH.
Qed.

(** Integer-like keys are left alone, and nothing else becomes one. *)
Lemma digit_class c :
  is_digit c = true ->
  is_underscore c = false /\ is_upper c = false /\ is_lower c = false.
Proof. ascii_cases c; repeat split. Qed.

Lemma snakeToCamel_digits s :
  (digits_only s = true -> snakeToCamel s = s)
  /\ (digits_only (snakeToCamel s) = true -> digits_only s = true).
Proof.
  induction s as [|c|c d s IHs IHd] using string_pair_ind; [done| |].
  - cbn. destruct (is_underscore c); done.
  - destruct (is_underscore c) eqn:Hu.
    + apply is_underscore_spec in Hu as ->. split; [done|].
      destruct (is_lower d) eqn:Hd.
      * rewrite snakeToCamel_pair by done. cbn [digits_only].
        intros [Hdig _]%andb_true_iff. apply digit_class in Hdig as (_ & Hup & _).
        by rewrite toUpperCase_upper in Hup.
      * by rewrite snakeToCamel_lone.
    + rewrite snakeToCamel_copy by done. cbn [digits_only] in *. split.
      * intros [Hc Hrest]%andb_true_iff. f_equal. by apply IHd.
      * intros [Hc Hrest]%andb_true_iff. rewrite Hc. by apply IHd.
Qed.

Lemma camelToSnake_digits s :
  (digits_only s = true -> camelToSnake s = s)
  /\ (digits_only (camelToSnake s) = true -> digits_only s = true).
Proof.
  induction s as [|c s [IH1 IH2]]; [done|].
  destruct (is_upper c) eqn:Hc.
  - rewrite camelToSnake_split by done. cbn [digits_only]. split; [|done].
    intros [Hdig _]%andb_true_iff. apply digit_class in Hdig as (_ & Hup & _).
    congruence.
  - rewrite camelToSnake_copy by done. cbn [digits_only]. split.
    + intros [_ Hrest]%andb_true_iff. f_equal. by apply IH1.
    + intros [Hdig Hrest]%andb_true_iff. rewrite Hdig. by apply IH2.
Qed.

(** [camelToSnake] leaves no uppercase letter behind. *)
Lemma camelToSnake_idempotent s : camelToSnake (camelToSnake s) = camelToSnake s.
Proof.
  induction s as [|c s IH]; [done|].
  destruct (is_upper c) eqn:Hc.
  - rewrite camelToSnake_split by done.
    rewrite (camelToSnake_copy "_") by done.
    rewrite camelToSnake_copy
      by (apply lower_not_upper; by apply toLowerCase_lower).
    by rewrite IH.
  - rewrite !(camelToSnake_copy c) by done. by rewrite IH.
Qed.

(** ** Rebuilding an object from rewritten entries *)

Lemma value_nested_ind (P : value -> Prop) :
  P VUndefined -> P VNull -> (forall b, P (VBool b)) -> (forall n, P (VNum n)) ->
  (forall s, P (VStr s)) -> (forall t, P (VDate t)) ->
  (forall items, Forall P items -> P (VArr items)) ->
  (forall props, Forall (fun kv => P (snd kv)) props -> P (VObj props)) ->
  forall x, P x.
Proof.
  intros Hu Hn Hb Hz Hs Hd Ha Ho. fix IH 1.
  intros [ | | b | n | s | t | items | props];
    [exact Hu | exact Hn | apply Hb | apply Hz | apply Hs | apply Hd | | ].
  - apply Ha. revert items. fix IHl 1.
    intros [|x items]; constructor; [apply IH | apply IHl].
  - apply Ho. revert props. fix IHl 1.
    intros [|[k v] props]; constructor; [apply IH | apply IHl].
Qed.

Section Entries.

Lemma defineProperty_keys k v o :
  map fst (defineProperty k v o)
  = if bool_decide (k ∈ map fst o) then map fst o else map fst o ++ [k].
Proof.
  induction o as [|[k' v'] o IH]; [done|]. cbn.
  destruct (bool_decide_reflect (k' = k)) as [->|Hne].
  - cbn. rewrite bool_decide_eq_true_2; [done|]. by left.
  - cbn. rewrite IH.
    destruct (bool_decide_reflect (k ∈ map fst o)) as [Hin|Hnin].
    + rewrite bool_decide_eq_true_2; [done|]. by right.
    + rewrite bool_decide_eq_false_2; [done|].
      intros [Heq|Hin]%elem_of_cons; [by subst|done].
Qed.

Lemma defineProperty_fresh k v o :
  k ∉ map fst o -> defineProperty k v o = o ++ [(k, v)].
Proof.
  induction o as [|[k' v'] o IH]; [done|]. cbn. intros Hnin.
  rewrite bool_decide_eq_false_2.
  - rewrite IH; [done|]. intros Hin. apply Hnin. by right.
  - intros ->. apply Hnin. by left.
Qed.

Lemma defineProperty_NoDup k v o :
  NoDup (map fst o) -> NoDup (map fst (defineProperty k v o)).
Proof.
  intros Hnd. rewrite defineProperty_keys. case_bool_decide; [done|].
  apply NoDup_app. split_and!; [done| |apply NoDup_singleton].
  intros x Hx ->%list_elem_of_singleton. done.
Qed.

Lemma buildFrom_NoDup es acc :
  NoDup (map fst acc) -> NoDup (map fst (buildFrom es acc)).
Proof.
  revert acc. induction es as [|[k v] es IH]; intros acc Hnd; [done|].
  cbn. apply IH. by apply defineProperty_NoDup.
Qed.

Lemma fromEntries_NoDup es : NoDup (map fst (fromEntries es)).
Proof. apply buildFrom_NoDup. constructor. Qed.

(** Entries that never repeat a key are kept as they are. *)
Lemma buildFrom_distinct es acc :
  NoDup (map fst acc ++ map fst es) -> buildFrom es acc = acc ++ es.
Proof.
  revert acc. induction es as [|[k v] es IH]; intros acc Hnd.
  - by rewrite app_nil_r.
  - cbn. cbn in Hnd.
    assert (k ∉ map fst acc) as Hk.
    { apply NoDup_app in Hnd as (_ & Hdisj & _).
      intros Hin. apply (Hdisj k Hin). by left. }
    rewrite defineProperty_fresh by done.
    rewrite IH.
    + by rewrite <- app_assoc.
    + rewrite map_app. cbn. by rewrite <- app_assoc.
Qed.

Lemma fromEntries_distinct es : NoDup (map fst es) -> fromEntries es = es.
Proof. intros Hnd. by apply (buildFrom_distinct es []). Qed.

Lemma defineProperty_key_inv k v o k' :
  k' ∈ map fst (defineProperty k v o) -> k' ∈ map fst o \/ k' = k.
Proof.
  rewrite defineProperty_keys. case_bool_decide; [by left|].
  intros [Hin|Hin]%elem_of_app; [by left|].
  right. by apply list_elem_of_singleton.
Qed.

Variables (h : string -> string) (onValue : value -> value).

Local Abbreviation onEntry := (fun '(k, v) => (h k, onValue v)).

(** A key rewrite that merges no two keys commutes with property
    definition... *)
Lemma defineProperty_map k v o :
  (forall k', k' ∈ map fst o -> h k' = h k -> k' = k) ->
  map onEntry (defineProperty k v o)
  = defineProperty (h k) (onValue v) (map onEntry o).
Proof.
  induction o as [|[k' v'] o IH]; intros Hinj; [done|]. cbn.
  destruct (bool_decide_reflect (k' = k)) as [->|Hne].
  - by rewrite bool_decide_eq_true_2.
  - rewrite bool_decide_eq_false_2.
    + cbn. f_equal. apply IH. intros k'' Hin. apply Hinj. by right.
    + intros Heq. apply Hne, Hinj; [by left|done].
Qed.

(** ... and so with the construction of a whole object. *)
Lemma buildFrom_map es acc :
  (forall k1 k2, k1 ∈ map fst acc ++ map fst es ->
                 k2 ∈ map fst acc ++ map fst es -> h k1 = h k2 -> k1 = k2) ->
  map onEntry (buildFrom es acc) = buildFrom (map onEntry es) (map onEntry acc).
Proof.
  revert acc. induction es as [|[k v] es IH]; intros acc Hinj; [done|].
  assert (Hgrow : forall k', k' ∈ map fst (defineProperty k v acc) ++ map fst es ->
                             k' ∈ map fst acc ++ map fst ((k, v) :: es)).
  { intros k' [Hin|Hin]%elem_of_app.
    - apply defineProperty_key_inv in Hin as [Hin| ->].
      + apply elem_of_app. by left.
      + apply elem_of_app. right. by left.
    - apply elem_of_app. right. by right. }
  cbn. rewrite <- defineProperty_map.
  - apply IH. intros k1 k2 Hk1 Hk2. apply Hinj; by apply Hgrow.
  - intros k' Hin. apply Hinj.
    + apply elem_of_app. by left.
    + apply elem_of_app. right. by left.
Qed.

Lemma fromEntries_map es :
  (forall k1 k2, k1 ∈ map fst es -> k2 ∈ map fst es -> h k1 = h k2 -> k1 = k2) ->
  map onEntry (fromEntries es) = fromEntries (map onEntry es).
Proof. intros Hinj. by apply (buildFrom_map es []). Qed.

End Entries.

(** Walking twice: when the second key rewrite merges no two keys the
    first one produced, the two walks over an object's entries amount to
    one walk with the composed rewrites. *)
Lemma fromEntries_twice (f g : string -> string) (F G : value -> value) ps :
  (forall k k', g (f k) = g (f k') -> f k = f k') ->
  fromEntries
    (map (fun '(k, v) => (g k, G v))
       (fromEntries (map (fun '(k, v) => (f k, F v)) ps)))
  = fromEntries (map (fun '(k, v) => (g (f k), G (F v))) ps).
Proof.
  intros Hinj.
  rewrite (fromEntries_map g G).
  - rewrite map_map.
    rewrite (map_ext _ (fun '(k, v) => (g (f k), G (F v))))
      by (by intros [k v]).
    apply fromEntries_distinct, fromEntries_NoDup.
  - intros k1 k2 Hk1 Hk2 Heq.
    rewrite map_map in Hk1, Hk2.
    apply list_elem_of_fmap in Hk1 as ([a1 v1] & -> & _).
    apply list_elem_of_fmap in Hk2 as ([a2 v2] & -> & _).
    by apply Hinj.
Qed.

Lemma map_entries_ext (f f' : string -> string) (F F' : value -> value) ps :
  (forall k, f k = f' k) ->
  Forall (fun kv => F (snd kv) = F' (snd kv)) ps ->
  map (fun '(k, v) => (f k, F v)) ps = map (fun '(k, v) => (f' k, F' v)) ps.
Proof.
  intros Hf HF. induction HF as [|[k v] ps Hv _ IH]; [done|].
  cbn in *. by rewrite Hf, Hv, IH.
Qed.

(** ** The walkers *)

(** [toWire(toLocal(x)) == toWire(x)], for every value. *)
Lemma keysToSnake_keysToCamel x : keysToSnake (keysToCamel x) = keysToSnake x.
Proof.
  induction x as [ | | | | | |items IH|props IH] using value_nested_ind;
    try reflexivity.
  - cbn. f_equal. rewrite map_map. by apply map_ext_Forall.
  - cbn. f_equal. rewrite fromEntries_twice.
    + f_equal. apply map_entries_ext; [apply camelToSnake_snakeToCamel|done].
    + intros k k' Heq.
      rewrite <- (snakeToCamel_camelToSnake k), <- (snakeToCamel_camelToSnake k').
      rewrite <- (camelToSnake_snakeToCamel k), <- (camelToSnake_snakeToCamel k').
      by rewrite Heq.
Qed.

(** [toLocal(toWire(x)) == toLocal(x)], for every value. *)
Lemma keysToCamel_keysToSnake x : keysToCamel (keysToSnake x) = keysToCamel x.
Proof.
  induction x as [ | | | | | |items IH|props IH] using value_nested_ind;
    try reflexivity.
  - cbn. f_equal. rewrite map_map. by apply map_ext_Forall.
  - cbn. f_equal. rewrite fromEntries_twice.
    + f_equal. apply map_entries_ext; [apply snakeToCamel_camelToSnake|done].
    + intros k k' Heq.
      rewrite <- (camelToSnake_snakeToCamel k), <- (camelToSnake_snakeToCamel k').
      rewrite <- (snakeToCamel_camelToSnake k), <- (snakeToCamel_camelToSnake k').
      by rewrite Heq.
Qed.

(** On a structure whose keys are all camelCase, [keysToCamel] changes
    nothing. *)
Lemma keysToCamel_camel_keyed x :
  keys_ok camel_key x = true -> keysToCamel x = x.
Proof.
  induction x as [ | | | | | |items IH|props IH] using value_nested_ind;
    try reflexivity.
  - cbn. intros Hall. f_equal.
    rewrite <- (map_id items) at 2. apply map_ext_Forall.
    rewrite forallb_forall in Hall.
    rewrite Forall_forall in IH |- *. intros x Hx.
    apply IH; [done|]. apply Hall. by apply list_elem_of_In.
  - cbn. intros [Hall Hnd]%andb_true_iff. f_equal.
    apply bool_decide_eq_true in Hnd.
    rewrite forallb_forall in Hall.
    rewrite (map_ext_Forall _ id).
    + rewrite map_id. by apply fromEntries_distinct.
    + rewrite Forall_forall in IH |- *. intros [k v] Hin.
      specialize (Hall (k, v) (proj1 (list_elem_of_In _ _) Hin)).
      cbn in Hall. apply andb_true_iff in Hall as [Hk Hv].
      cbn. rewrite snakeToCamel_camel_key by done.
      f_equal. by apply (IH (k, v)).
Qed.

(** C10. [keysToSnake] is idempotent: for every value [x] built from plain
    objects, arrays and scalars (and [Date] leaves),
    [keysToSnake (keysToSnake x) = keysToSnake x]; a key produced by
    [camelToSnake] has no uppercase letter, so the second walk leaves every
    key as it is. *)
Theorem keysToSnake_idempotent x : keysToSnake (keysToSnake x) = keysToSnake x.
Proof.
  induction x as [ | | | | | |items IH|props IH] using value_nested_ind;
    try reflexivity.
  - cbn. f_equal. rewrite map_map. by apply map_ext_Forall.
  - cbn. f_equal. rewrite fromEntries_twice.
    + f_equal. apply map_entries_ext; [apply camelToSnake_idempotent|done].
    + intros k k'. by rewrite !camelToSnake_idempotent.
Qed.

(** C4. On every nested structure of plain objects, arrays and scalars
    whose keys are in the restricted class (snake_case with single
    underscore-then-lowercase-letter boundaries, or camelCase without
    underscores), the two walkers are mutually inverse:
    [keysToSnake (keysToCamel x) = keysToSnake x],
    [keysToCamel (keysToSnake x) = keysToCamel x], and when the keys are
    all camelCase, [keysToCamel (keysToSnake x)] is [x] itself. *)
Theorem keysToSnake_keysToCamel_inverse x :
  keys_ok restricted_key x = true ->
  keysToSnake (keysToCamel x) = keysToSnake x
  /\ keysToCamel (keysToSnake x) = keysToCamel x
  /\ (keys_ok camel_key x = true -> keysToCamel (keysToSnake x) = x).
Proof.
  intros _. split_and!.
  - apply keysToSnake_keysToCamel.
  - apply keysToCamel_keysToSnake.
  - intros Hcamel. rewrite keysToCamel_keysToSnake.
    by apply keysToCamel_camel_keyed.
Qed.

Lemma keysToSnake_keysToCamel_inverse_witness :
  keys_ok restricted_key Scenario.sample_camel_payload = true
  /\ keys_ok camel_key Scenario.sample_camel_payload = true
  /\ keysToSnake (keysToCamel Scenario.sample_camel_payload) = keysToSnake Scenario.sample_camel_payload
  /\ keysToCamel (keysToSnake Scenario.sample_camel_payload) = keysToCamel Scenario.sample_camel_payload
  /\ keysToCamel (keysToSnake Scenario.sample_camel_payload) = Scenario.sample_camel_payload.
Proof.
  assert (Hr : keys_ok restricted_key Scenario.sample_camel_payload = true) by reflexivity.
  assert (Hc : keys_ok camel_key Scenario.sample_camel_payload = true) by reflexivity.
  destruct (keysToSnake_keysToCamel_inverse Scenario.sample_camel_payload Hr)
    as (H1 & H2 & H3).
  split; [exact Hr|]. split; [exact Hc|]. split; [exact H1|].
  split; [exact H2|]. exact (H3 Hc).
Defined.

(** ** One transport call *)

Section TransportFacts.

Variable API_BASE_URL : string.
Variable fetch : nat -> Request.t -> fetch_result.
Variables (endpoint : string) (options : RequestOptions) (w : world).

Local Abbreviation req := (outgoing API_BASE_URL endpoint options (localStorage w)).
Local Abbreviation call := (apiClient API_BASE_URL fetch endpoint options w).

Ltac run_call :=
  unfold apiClient, outgoing, getAuthHeaders, callFetch, responseJson,
    bind, tryCatch, getItem, ret, throw, lift; cbn;
  destruct (truthy (ofItem (localStorage w !! "access_token"))); cbn.

(** A call issues exactly one request and touches neither storage nor the
    session state. *)
Lemma apiClient_world :
  snd call
  = {| localStorage := localStorage w; user := user w; loading := loading w;
       sent := sent w ++ [req] |}.
Proof.
  run_call.
  all: match goal with |- context [fetch ?n ?r] => destruct (fetch n r) as [|r0] end;
    cbn; try reflexivity.
  all: destruct (Response.ok r0); cbn;
    [destruct (Response.status r0 =? 204); cbn; [reflexivity|] |].
  all: destruct (Response.json r0) as [j|]; cbn; try reflexivity.
  all: destruct (getProp j "error") eqn:He, (getProp j "data") as [?|d] eqn:Hd;
    cbn; try reflexivity.
  all: destruct d; cbn; try reflexivity; rewrite ?Hd; reflexivity.
Qed.

Lemma apiClient_network_error :
  fetch (length (sent w)) req = FetchRejected ->
  fst call
  = Rejected (ExApiError (ApiError.new 0 (VStr "NETWORK_ERROR")
                            (VStr "Unable to connect to server"))).
Proof. run_call; intros ->; reflexivity. Qed.

Variable r : Response.t.
Hypothesis answered : fetch (length (sent w)) req = FetchResolved r.

Lemma apiClient_http_error :
  Response.ok r = false ->
  Response.json r <> Some VNull -> Response.json r <> Some VUndefined ->
  fst call
  = Rejected (ExApiError
                (ApiError.new (Response.status r)
                   (orElse (declared r "code") (VStr "UNKNOWN"))
                   (orElse (declared r "message") (VStr (Response.statusText r))))).
Proof.
  unfold declared. revert answered. run_call; intros -> Hok Hn Hu; cbn; rewrite Hok; cbn.
  all: destruct (Response.json r) as [[]|]; cbn; congruence.
Qed.

Lemma apiClient_http_error_null :
  Response.ok r = false ->
  Response.json r = Some VNull \/ Response.json r = Some VUndefined ->
  fst call = Rejected (ExOther TypeError).
Proof.
  revert answered. run_call; intros -> Hok [-> | ->]; cbn; rewrite Hok; reflexivity.
Qed.

Lemma apiClient_no_content :
  Response.ok r = true -> Response.status r = 204 ->
  fst call = Resolved VUndefined.
Proof.
  revert answered. run_call; intros -> Hok Hs; cbn; rewrite Hok, Hs; reflexivity.
Qed.

Lemma apiClient_unparseable :
  Response.ok r = true -> Response.status r <> 204 ->
  Response.json r = None ->
  fst call = Rejected (ExOther SyntaxError).
Proof.
  revert answered.
  run_call; intros -> Hok Hs%Z.eqb_neq Hj; cbn; rewrite Hok, Hs, Hj; reflexivity.
Qed.

Lemma apiClient_null :
  Response.ok r = true -> Response.status r <> 204 ->
  Response.json r = Some VNull \/ Response.json r = Some VUndefined ->
  fst call = Rejected (ExOther TypeError).
Proof.
  revert answered.
  run_call; intros -> Hok Hs%Z.eqb_neq [Hj|Hj]; cbn; rewrite Hok, Hs, Hj; reflexivity.
Qed.

Lemma apiClient_decodes j :
  Response.ok r = true -> Response.status r <> 204 ->
  Response.json r = Some j -> j <> VNull -> j <> VUndefined ->
  fst call
  = Resolved (keysToCamel (match getPropOpt j "data" with
                           | VUndefined => j
                           | d => d
                           end)).
Proof.
  revert answered.
  run_call; intros -> Hok Hs%Z.eqb_neq Hj Hn Hu; cbn; rewrite Hok, Hs, Hj; cbn.
  all: unfold getPropOpt; destruct (getProp j "data") as [c|d] eqn:Hd; cbn.
  all: try (destruct j; cbn in Hd; congruence).
  all: destruct d; cbn; rewrite ?Hd; reflexivity.
Qed.

End TransportFacts.

Lemma declares_declared r c m :
  declares r c m -> declared r "code" = VStr c /\ declared r "message" = VStr m.
Proof.
  intros (props & eprops & Hj & He & Hc & Hm).
  unfold declared, getPropOpt. rewrite Hj. cbn. rewrite He. cbn.
  by rewrite Hc, Hm.
Qed.

(** ** Claims about the transport layer *)

(** C3. No exception other than an [ApiError] should escape [apiClient];
    the code lets one through. On a 200 answer whose body is not JSON,
    [await response.json()] on the success path rejects outside any [try],
    and the promise rejects with that [SyntaxError]. *)
Theorem apiClient_success_parse_error_escapes :
  fst (apiClient "" (Scenario.answer Scenario.html_page) "/api/portfolios"
         no_options (initial_world ∅))
  = Rejected (ExOther SyntaxError).
Proof. reflexivity. Qed.

(** The same happens on a body that is the JSON value [null], on the
    success path ([json.data]) and on the error path ([errorBody.error]). *)
Lemma apiClient_null_error_body_escapes :
  fst (apiClient "" (Scenario.answer Scenario.null_error_body) "/api/portfolios"
         no_options (initial_world ∅))
  = Rejected (ExOther TypeError).
Proof. reflexivity. Qed.

(** Apart from these bodies, every rejection is an [ApiError]. *)
Lemma apiClient_rejects_ApiError API_BASE_URL fetch endpoint options w e :
  fst (apiClient API_BASE_URL fetch endpoint options w) = Rejected e ->
  (exists a, e = ExApiError a)
  \/ (exists r,
        fetch (length (sent w)) (outgoing API_BASE_URL endpoint options (localStorage w))
        = FetchResolved r
        /\ ((e = ExOther SyntaxError /\ Response.ok r = true /\ Response.json r = None)
            \/ (e = ExOther TypeError
                /\ (Response.json r = Some VNull \/ Response.json r = Some VUndefined)))).
Proof.
  destruct (fetch (length (sent w))
              (outgoing API_BASE_URL endpoint options (localStorage w)))
    as [|r] eqn:Hf.
  - rewrite apiClient_network_error by done. injection 1 as <-. left. eauto.
  - assert ((Response.json r = Some VNull \/ Response.json r = Some VUndefined)
            \/ (Response.json r <> Some VNull /\ Response.json r <> Some VUndefined))
      as [Hnull|[Hn Hu]]
      by (destruct (Response.json r) as [[]|];
          first [left; auto; fail | right; split; congruence]).
    + destruct (Response.ok r) eqn:Hok.
      * destruct (decide (Response.status r = 204)) as [H204|H204].
        -- by rewrite (apiClient_no_content _ _ _ _ _ r).
        -- rewrite (apiClient_null _ _ _ _ _ r) by done. injection 1 as <-.
           right. exists r. split; [done|]. by right.
      * rewrite (apiClient_http_error_null _ _ _ _ _ r) by done. injection 1 as <-.
        right. exists r. split; [done|]. by right.
    + destruct (Response.ok r) eqn:Hok.
      * destruct (decide (Response.status r = 204)) as [H204|H204].
        -- by rewrite (apiClient_no_content _ _ _ _ _ r).
        -- destruct (Response.json r) as [j|] eqn:Hj.
           ++ rewrite (apiClient_decodes _ _ _ _ _ r Hf j) by congruence. done.
           ++ rewrite (apiClient_unparseable _ _ _ _ _ r) by done. injection 1 as <-.
              right. exists r. split; [done|]. by left.
      * rewrite (apiClient_http_error _ _ _ _ _ r) by done. injection 1 as <-.
        left. eauto.
Qed.

(** C9. On a 2xx answer the payload should be the body's [data] field when
    there is one and the whole body otherwise; the code throws instead when
    the body is the JSON value [null]: [json.data] is read before any test
    and raises a [TypeError]. *)
Theorem apiClient_null_body_throws :
  fst (apiClient "" (Scenario.answer Scenario.null_body) "/api/market/bonds"
         no_options (initial_world ∅))
  = Rejected (ExOther TypeError).
Proof. reflexivity. Qed.

(** On every other JSON body the envelope rule holds
    ([apiClient_decodes]); the two bodies the specification names: *)
Lemma apiClient_unwraps_envelope :
  fst (apiClient "" (Scenario.answer Scenario.enveloped) "/api/x"
         no_options (initial_world ∅))
  = Resolved (VObj [("a", VNum 1)])
  /\ fst (apiClient "" (Scenario.answer Scenario.bare) "/api/x"
            no_options (initial_world ∅))
     = Resolved (VObj [("a", VNum 1)]).
Proof. split; reflexivity. Qed.

(** C5 as stated fails: an error body that exposes [error.code] (the empty
    string) and [error.message] is not surfaced with that code; [||] takes
    the fallback for every falsy value. *)
Lemma apiClient_empty_code_counterexample :
  Response.ok Scenario.empty_code = false
  /\ declares Scenario.empty_code "" "Bad"
  /\ fst (apiClient "" (Scenario.answer Scenario.empty_code) "/api/portfolios"
            no_options (initial_world ∅))
     = Rejected (ExApiError (ApiError.new_raw 400 (VStr "UNKNOWN") "Bad"))
  /\ fst (apiClient "" (Scenario.answer Scenario.empty_code) "/api/portfolios"
            no_options (initial_world ∅))
     <> Rejected (ExApiError (ApiError.new_raw 400 (VStr "") "Bad")).
Proof.
  split; [reflexivity|]. split.
  - eexists _, _. repeat split; reflexivity.
  - split; [reflexivity|]. discriminate.
Qed.

(** C5, amended. For every answer whose status is outside the success
    range and whose body is not the JSON value [null]: if the body parses
    as JSON exposing a non-empty [error.code] and a non-empty
    [error.message], [apiClient] rejects with an [ApiError] carrying the
    answer's status and exactly that code and message; if the body does not
    parse, or its [error.code] and [error.message] are absent or falsy, it
    rejects with code ["UNKNOWN"] and the answer's status text. *)
Theorem apiClient_error_classification
    API_BASE_URL fetch endpoint options w r :
  fetch (length (sent w)) (outgoing API_BASE_URL endpoint options (localStorage w))
  = FetchResolved r ->
  Response.ok r = false ->
  Response.json r <> Some VNull -> Response.json r <> Some VUndefined ->
  (forall c m, declares r c m -> c <> "" -> m <> "" ->
     fst (apiClient API_BASE_URL fetch endpoint options w)
     = Rejected (ExApiError (ApiError.new_raw (Response.status r) (VStr c) m)))
  /\ (Response.json r = None
      \/ (truthy (declared r "code") = false
          /\ truthy (declared r "message") = false) ->
      fst (apiClient API_BASE_URL fetch endpoint options w)
      = Rejected (ExApiError
                    (ApiError.new_raw (Response.status r) (VStr "UNKNOWN")
                       (Response.statusText r)))).
Proof.
  intros Hf Hok Hn Hu.
  rewrite (apiClient_http_error _ _ _ _ _ r) by done. split.
  - intros c m [Hc Hm]%declares_declared Hce Hme. rewrite Hc, Hm.
    unfold orElse, ApiError.new. cbn.
    by rewrite !bool_decide_eq_false_2.
  - intros [Hnone|[Hc Hm]].
    + unfold declared. rewrite Hnone. reflexivity.
    + unfold orElse. by rewrite Hc, Hm.
Qed.

Lemma apiClient_error_classification_witness :
  fst (apiClient "" (Scenario.answer Scenario.declared_error) "/api/portfolios/p9"
         no_options (initial_world ∅))
  = Rejected (ExApiError
                (ApiError.new_raw 404 (VStr "PORTFOLIO_NOT_FOUND") "No such portfolio"))
  /\ fst (apiClient "" (Scenario.answer Scenario.server_down) "/api/portfolios/p9"
            no_options (initial_world ∅))
     = Rejected (ExApiError
                   (ApiError.new_raw 500 (VStr "UNKNOWN") "Internal Server Error")).
Proof.
  split.
  - apply (proj1 (apiClient_error_classification ""
                    (Scenario.answer Scenario.declared_error) "/api/portfolios/p9"
                    no_options (initial_world ∅) Scenario.declared_error
                    eq_refl eq_refl ltac:(discriminate) ltac:(discriminate))
             "PORTFOLIO_NOT_FOUND" "No such portfolio").
    + eexists _, _. repeat split; reflexivity.
    + discriminate.
    + discriminate.
  - apply (proj2 (apiClient_error_classification ""
                    (Scenario.answer Scenario.server_down) "/api/portfolios/p9"
                    no_options (initial_world ∅) Scenario.server_down
                    eq_refl eq_refl ltac:(discriminate) ltac:(discriminate))).
    left. reflexivity.
Defined.

(** What [getAuthHeaders] returns, by the stored token. *)
Lemma getAuthHeaders_spec w :
  getAuthHeaders w
  = (Resolved (match localStorage w !! "access_token" with
               | Some t =>
                   if bool_decide (t = "") then ∅
                   else {[ "Authorization" := "Bearer " +:+ t ]}
               | None => ∅
               end), w).
Proof.
  unfold getAuthHeaders, bind, getItem, ret.
  destruct (localStorage w !! "access_token") as [t|]; cbn; [|done].
  by case_bool_decide.
Qed.

Lemma outgoing_authorization API_BASE_URL endpoint options ls :
  default ∅ (opt_headers options) !! "Authorization" = None ->
  Request.headers (outgoing API_BASE_URL endpoint options ls) !! "Authorization"
  = match ls !! "access_token" with
    | Some t => if bool_decide (t = "") then None else Some ("Bearer " +:+ t)
    | None => None
    end.
Proof.
  intros Hcaller. unfold outgoing. cbn [Request.headers].
  rewrite getAuthHeaders_spec. cbn [fst localStorage initial_world].
  rewrite lookup_union_r by done.
  destruct (ls !! "access_token") as [t|]; [case_bool_decide|].
  - rewrite lookup_union_r by done. by rewrite lookup_singleton_ne.
  - by rewrite lookup_union_l', lookup_singleton_eq
      by (rewrite lookup_singleton_eq; eauto).
  - rewrite lookup_union_r by done. by rewrite lookup_singleton_ne.
Qed.

(** C8 as stated fails twice: a caller's own [Authorization] entry is sent
    although no token is stored, and a stored token that is the empty
    string produces no header. *)
Lemma apiClient_bearer_counterexample :
  ((∅ : gmap string string) !! "access_token" = None
   /\ map (fun req => Request.headers req !! "Authorization")
        (sent (snd (apiClient "" (Scenario.answer Scenario.bare) "/api/portfolios"
                      Scenario.own_authorization (initial_world ∅))))
      = [Some "Basic dXNlcjpwdw=="])
  /\ (({[ "access_token" := "" ]} : gmap string string) !! "access_token" = Some ""
      /\ map (fun req => Request.headers req !! "Authorization")
           (sent (snd (apiClient "" (Scenario.answer Scenario.bare) "/api/portfolios"
                         no_options (initial_world {[ "access_token" := "" ]}))))
         = [None]).
Proof. repeat split; vm_compute; reflexivity. Qed.

(** C8, amended. A call issues one request. When the caller's own headers
    have no [Authorization] entry, that request carries
    [Authorization: Bearer t] if and only if [access_token] holds the
    non-empty string [t] at the moment of the call, and carries no
    [Authorization] header at all when no token, or the empty string, is
    stored. *)
Theorem apiClient_bearer_header API_BASE_URL fetch endpoint options w :
  default ∅ (opt_headers options) !! "Authorization" = None ->
  exists req,
    sent (snd (apiClient API_BASE_URL fetch endpoint options w)) = sent w ++ [req]
    /\ (forall t, t <> "" ->
          (Request.headers req !! "Authorization" = Some ("Bearer " +:+ t)
           <-> localStorage w !! "access_token" = Some t))
    /\ (localStorage w !! "access_token" = None
        \/ localStorage w !! "access_token" = Some "" ->
        Request.headers req !! "Authorization" = None).
Proof.
  intros Hcaller. eexists. split; [by rewrite apiClient_world|].
  rewrite outgoing_authorization by done. split.
  - intros t Ht. destruct (localStorage w !! "access_token") as [t'|]; [|done].
    case_bool_decide as He; [subst t'|].
    + split; [done|]. intros Heq. by simplify_eq.
    + split; intros Heq; by simplify_eq/=.
  - intros [->| ->]; done.
Qed.

Lemma apiClient_bearer_header_witness :
  exists req,
    sent (snd (apiClient "" (Scenario.answer Scenario.bare) "/api/portfolios"
                 no_options (initial_world Scenario.stored_session)))
    = [req]
    /\ Request.headers req !! "Authorization" = Some "Bearer old-access".
Proof.
  destruct (apiClient_bearer_header "" (Scenario.answer Scenario.bare)
              "/api/portfolios" no_options
              (initial_world Scenario.stored_session) eq_refl)
    as (req & Hsent & Hiff & _).
  exists req. split; [exact Hsent|].
  apply (Hiff "old-access"); [discriminate|reflexivity].
Defined.

(** ** Claims about the session lifecycle manager *)

Lemma clearAuth_spec w :
  clearAuth w
  = (Resolved tt,
     {| localStorage :=
          delete "user_email"
            (delete "refresh_token" (delete "access_token" (localStorage w)));
        user := user w; loading := loading w; sent := sent w |}).
Proof. reflexivity. Qed.

Lemma cached_email stored :
  orElse (ofItem stored) (VStr "") = VStr (default "" stored).
Proof.
  destruct stored as [s|]; [|done]. unfold orElse. cbn.
  by case_bool_decide; subst.
Qed.

(** C7. Whatever the logout call does (it resolves, or rejects with any
    error), [signOut] completes, and afterwards the storage keys
    [access_token], [refresh_token] and [user_email] are all absent and the
    session user is [null]. *)
Theorem signOut_always_clears API_BASE_URL fetch w :
  fst (signOut API_BASE_URL fetch w) = Resolved tt
  /\ localStorage (snd (signOut API_BASE_URL fetch w)) !! "access_token" = None
  /\ localStorage (snd (signOut API_BASE_URL fetch w)) !! "refresh_token" = None
  /\ localStorage (snd (signOut API_BASE_URL fetch w)) !! "user_email" = None
  /\ user (snd (signOut API_BASE_URL fetch w)) = VNull.
Proof.
  unfold signOut, api_post, bind, tryCatch, ret.
  destruct (apiClient API_BASE_URL fetch "/api/auth/logout" _ w) as [[v|e] w1];
    rewrite clearAuth_spec; cbn.
  all: split_and!; try reflexivity.
  all: by rewrite ?lookup_delete_eq, ?lookup_delete_ne, ?lookup_delete_eq by done.
Qed.

(** C6 as stated fails: when the effect was cleaned up before the failed
    profile fetch settled, the guards [if (!cancelled)] skip both state
    updates, so the user stays [null] and [loading] stays [true]. *)
Lemma restoreSession_cancelled_counterexample :
  Scenario.stored_session !! "access_token" = Some "old-access"
  /\ fst (api_get "" (Scenario.answer Scenario.server_down) "/api/auth/profile"
            (initial_world Scenario.stored_session))
     = Rejected (ExApiError
                   (ApiError.new_raw 500 (VStr "UNKNOWN") "Internal Server Error"))
  /\ user (snd (restoreSession "" (Scenario.answer Scenario.server_down)
                  Scenario.always (initial_world Scenario.stored_session)))
     = VNull
  /\ loading (snd (restoreSession "" (Scenario.answer Scenario.server_down)
                     Scenario.always (initial_world Scenario.stored_session)))
     = true.
Proof. repeat split; vm_compute; reflexivity. Qed.

(** C6, amended. For every [restoreSession] run in which an access token
    is stored and the profile fetch fails with an error that is not a 401
    [ApiError], none of the storage keys is modified; and if the effect has
    not been cleaned up when that fetch settles ([cancelled] is still
    false), the run ends with the session user equal to
    [{id: "unknown", email}], [email] being the cached email (the empty
    string when there is none), and [loading] false. *)
Theorem restoreSession_non_auth_failure API_BASE_URL fetch cancelled w err :
  truthy (ofItem (localStorage w !! "access_token")) = true ->
  fst (api_get API_BASE_URL fetch "/api/auth/profile" w) = Rejected err ->
  is_401 err = false ->
  fst (restoreSession API_BASE_URL fetch cancelled w) = Resolved tt
  /\ localStorage (snd (restoreSession API_BASE_URL fetch cancelled w))
     = localStorage w
  /\ (cancelled (S (length (sent w))) = false ->
      user (snd (restoreSession API_BASE_URL fetch cancelled w))
      = VObj [("id", VStr "unknown");
              ("email", VStr (default "" (localStorage w !! "user_email")))]
      /\ loading (snd (restoreSession API_BASE_URL fetch cancelled w)) = false).
Proof.
  intros Htoken Hfail H401.
  unfold restoreSession, bind, getItem. rewrite Htoken. cbn [negb].
  unfold tryFinally, tryCatch, bind. unfold api_get in *.
  pose proof (apiClient_world API_BASE_URL fetch "/api/auth/profile" no_options w)
    as Hw.
  destruct (apiClient API_BASE_URL fetch "/api/auth/profile" no_options w)
    as [out w1].
  cbn in Hfail, Hw. subst out w1. rewrite H401.
  unfold unlessCancelled, setUser, setLoading. cbn [sent].
  rewrite !length_app, !Nat.add_1_r.
  destruct (cancelled (S (length (sent w)))) eqn:Hc; cbn;
    rewrite ?length_app, ?Nat.add_1_r, ?Hc; cbn.
  - split_and!; [reflexivity..|]. discriminate.
  - split_and!; [reflexivity..|]. intros _. by rewrite cached_email.
Qed.

Lemma restoreSession_non_auth_failure_witness :
  localStorage (snd (restoreSession "" (Scenario.answer Scenario.server_down)
                       Scenario.never (initial_world Scenario.stored_session)))
  = Scenario.stored_session
  /\ user (snd (restoreSession "" (Scenario.answer Scenario.server_down)
                  Scenario.never (initial_world Scenario.stored_session)))
     = VObj [("id", VStr "unknown"); ("email", VStr "a@b.com")]
  /\ loading (snd (restoreSession "" (Scenario.answer Scenario.server_down)
                     Scenario.never (initial_world Scenario.stored_session)))
     = false.
Proof.
  destruct (restoreSession_non_auth_failure "" (Scenario.answer Scenario.server_down)
              Scenario.never (initial_world Scenario.stored_session)
              (ExApiError (ApiError.new_raw 500 (VStr "UNKNOWN") "Internal Server Error"))
              eq_refl eq_refl eq_refl)
    as (_ & Hls & Hstate).
  split; [exact Hls|]. exact (Hstate eq_refl).
Defined.

(** ** Why the stored tokens are lost *)

(** [snakeToCamel] leaves no underscore-then-lowercase pair behind, so no
    key of a decoded payload is spelled with one. *)
Lemma snakeToCamel_starts_lower s :
  starts_lower s = false -> starts_lower (snakeToCamel s) = false.
Proof.
  destruct s as [|c s]; [done|]. cbn [starts_lower]. intros Hc.
  destruct (is_underscore c) eqn:Hu.
  - apply is_underscore_spec in Hu as ->. destruct s as [|d s]; [done|].
    destruct (is_lower d) eqn:Hd.
    + rewrite snakeToCamel_pair by done. cbn.
      apply upper_not_lower. by apply toUpperCase_upper.
    + by rewrite snakeToCamel_lone.
  - rewrite snakeToCamel_copy by done. done.
Qed.

Lemma snakeToCamel_no_boundary s : has_boundary (snakeToCamel s) = false.
Proof.
  induction s as [|c|c d s IHs IHd] using string_pair_ind; [done| |].
  - cbn. destruct (is_underscore c) eqn:Hu; cbn; by rewrite ?Hu, ?andb_false_r.
  - destruct (is_underscore c) eqn:Hu.
    + apply is_underscore_spec in Hu as ->. destruct (is_lower d) eqn:Hd.
      * rewrite snakeToCamel_pair by done. cbn [has_boundary].
        rewrite IHs, orb_false_r.
        rewrite upper_not_underscore by (by apply toUpperCase_upper). done.
      * rewrite snakeToCamel_lone by done. cbn [has_boundary].
        rewrite IHd, orb_false_r.
        rewrite snakeToCamel_starts_lower by done. by rewrite andb_false_r.
    + rewrite snakeToCamel_copy by done. cbn [has_boundary].
      by rewrite Hu, IHd.
Qed.

Lemma lookupProperty_absent name o :
  name ∉ map fst o -> lookupProperty name o = None.
Proof.
  induction o as [|[k v] o IH]; [done|]. cbn. intros Hnin.
  rewrite bool_decide_eq_false_2.
  - apply IH. intros Hin. apply Hnin. by right.
  - intros ->. apply Hnin. by left.
Qed.

Lemma buildFrom_keys es acc k :
  k ∈ map fst (buildFrom es acc) -> k ∈ map fst acc \/ k ∈ map fst es.
Proof.
  revert acc. induction es as [|[k' v'] es IH]; intros acc Hin; [by left|].
  cbn in Hin. apply IH in Hin as [Hin|Hin].
  - apply defineProperty_key_inv in Hin as [Hin| ->]; [by left|].
    right. by left.
  - right. by right.
Qed.

(** A decoded payload has no property whose name contains a snake_case
    boundary: reading one gives [undefined] (or throws, on [null] and
    [undefined]). *)
Lemma getProp_keysToCamel x name :
  has_boundary name = true ->
  getProp (keysToCamel x) name = inl TypeError
  \/ getProp (keysToCamel x) name = inr VUndefined.
Proof.
  intros Hname. destruct x; cbn; auto.
  right. rewrite lookupProperty_absent; [done|].
  intros [Hin|Hin]%buildFrom_keys; [by apply elem_of_nil in Hin|].
  rewrite map_map in Hin.
  apply list_elem_of_fmap in Hin as ([k v] & -> & _). cbn in Hname.
  by rewrite snakeToCamel_no_boundary in Hname.
Qed.

(** What a call can resolve with: nothing (204) or a decoded payload. *)
Lemma apiClient_resolved_shape API_BASE_URL fetch endpoint options w v :
  fst (apiClient API_BASE_URL fetch endpoint options w) = Resolved v ->
  v = VUndefined \/ exists x, v = keysToCamel x.
Proof.
  destruct (fetch (length (sent w))
              (outgoing API_BASE_URL endpoint options (localStorage w)))
    as [|r] eqn:Hf.
  - by rewrite apiClient_network_error.
  - assert ((Response.json r = Some VNull \/ Response.json r = Some VUndefined)
            \/ (Response.json r <> Some VNull /\ Response.json r <> Some VUndefined))
      as [Hnull|[Hn Hu]]
      by (destruct (Response.json r) as [[]|];
          first [left; auto; fail | right; split; congruence]).
    all: destruct (Response.ok r) eqn:Hok;
      [destruct (decide (Response.status r = 204)) as [H204|H204] |].
    all: try (rewrite (apiClient_no_content _ _ _ _ _ r) by done;
              intros [= <-]; by left).
    + by rewrite (apiClient_null _ _ _ _ _ r).
    + by rewrite (apiClient_http_error_null _ _ _ _ _ r).
    + destruct (Response.json r) as [j|] eqn:Hj.
      * rewrite (apiClient_decodes _ _ _ _ _ r Hf j) by congruence.
        intros [= <-]. right. eauto.
      * by rewrite (apiClient_unparseable _ _ _ _ _ r).
    + by rewrite (apiClient_http_error _ _ _ _ _ r).
Qed.

Lemma apiClient_resolved_no_snake API_BASE_URL fetch endpoint options w v name :
  fst (apiClient API_BASE_URL fetch endpoint options w) = Resolved v ->
  has_boundary name = true ->
  getProp v name = inl TypeError \/ getProp v name = inr VUndefined.
Proof.
  intros [->|[x ->]]%apiClient_resolved_shape Hname; [by left|].
  by apply getProp_keysToCamel.
Qed.

(** C2. [signIn] should store the access and refresh tokens the login
    endpoint returned; it stores the text ["undefined"] under both keys.
    [apiClient] has camelized the payload's keys ([accessToken],
    [refreshToken]) and [signIn] reads [data.access_token] and
    [data.refresh_token], which are [undefined]. The email and the session
    user are as the claim says. *)
Theorem signIn_stores_undefined_tokens :
  fst (api_post "" (Scenario.answer Scenario.login_response) "/api/auth/login"
         (VObj [("email", VStr "a@b.com"); ("password", VStr "secret")])
         (initial_world ∅))
  = Resolved (VObj [("accessToken", VStr "new-access");
                    ("refreshToken", VStr "new-refresh");
                    ("user", VObj [("id", VStr "u1"); ("email", VStr "a@b.com")])])
  /\ fst (signIn "" (Scenario.answer Scenario.login_response) "a@b.com" "secret"
            (initial_world ∅))
     = Resolved tt
  /\ localStorage (snd (signIn "" (Scenario.answer Scenario.login_response)
                          "a@b.com" "secret" (initial_world ∅)))
     = {[ "access_token" := "undefined";
          "refresh_token" := "undefined";
          "user_email" := "a@b.com" ]}
  /\ user (snd (signIn "" (Scenario.answer Scenario.login_response)
                  "a@b.com" "secret" (initial_world ∅)))
     = VObj [("id", VStr "u1"); ("email", VStr "a@b.com")].
Proof. repeat split; vm_compute; reflexivity. Qed.

(** This is so whatever the endpoint answers: a [signIn] that completes
    has stored ["undefined"] under both token keys. *)
Lemma signIn_never_stores_tokens API_BASE_URL fetch email password w :
  fst (signIn API_BASE_URL fetch email password w) = Resolved tt ->
  localStorage (snd (signIn API_BASE_URL fetch email password w)) !! "access_token"
  = Some "undefined"
  /\ localStorage (snd (signIn API_BASE_URL fetch email password w)) !! "refresh_token"
     = Some "undefined".
Proof.
  unfold signIn, api_post, bind.
  pose proof (apiClient_resolved_no_snake API_BASE_URL fetch "/api/auth/login"
    {| opt_method := Some POST;
       opt_body := VObj [("email", VStr email); ("password", VStr password)];
       opt_headers := None |} w) as Hshape.
  destruct (apiClient API_BASE_URL fetch "/api/auth/login" _ w) as [[data|e] w1];
    [|discriminate].
  destruct (Hshape data "access_token" eq_refl eq_refl) as [Ha|Ha];
    rewrite Ha; cbn; [discriminate|].
  destruct (Hshape data "refresh_token" eq_refl eq_refl) as [Hr|Hr];
    rewrite Hr; cbn; [discriminate|].
  destruct (getProp data "user") as [c|u]; cbn; [discriminate|].
  destruct (getProp u "email") as [c|mail]; cbn; [discriminate|].
  intros _. split.
  - by rewrite !lookup_insert_ne, lookup_insert_eq by done.
  - by rewrite lookup_insert_ne, lookup_insert_eq by done.
Qed.

(** C1. After a 401, a successful refresh and a successful retry,
    [restoreSession] should leave the refresh endpoint's token pair in
    storage; it leaves the text ["undefined"] under both keys, for the same
    reason as [signIn]: the refreshed payload has been camelized and
    [data.access_token], [data.refresh_token] are [undefined]. The run does
    end authenticated. *)
Theorem restoreSession_refresh_stores_undefined_tokens :
  fst (api_get "" Scenario.expired_then_refreshed "/api/auth/profile"
         (initial_world Scenario.stored_session))
  = Rejected (ExApiError (ApiError.new_raw 401 (VStr "UNKNOWN") "Unauthorized"))
  /\ fst (restoreSession "" Scenario.expired_then_refreshed Scenario.never
            (initial_world Scenario.stored_session))
     = Resolved tt
  /\ localStorage (snd (restoreSession "" Scenario.expired_then_refreshed
                          Scenario.never (initial_world Scenario.stored_session)))
     = {[ "access_token" := "undefined";
          "refresh_token" := "undefined";
          "user_email" := "a@b.com" ]}
  /\ user (snd (restoreSession "" Scenario.expired_then_refreshed
                  Scenario.never (initial_world Scenario.stored_session)))
     = VObj [("id", VStr "u1"); ("email", VStr "a@b.com")]
  /\ loading (snd (restoreSession "" Scenario.expired_then_refreshed
                     Scenario.never (initial_world Scenario.stored_session)))
     = false
  /\ map Request.url
       (sent (snd (restoreSession "" Scenario.expired_then_refreshed
                     Scenario.never (initial_world Scenario.stored_session))))
     = ["/api/auth/profile"; "/api/auth/refresh"; "/api/auth/profile"].
Proof. repeat split; vm_compute; reflexivity. Qed.

Ltac call_step :=
  match goal with
  | |- context [apiClient ?a ?f ?e ?o ?w] =>
      let Hw := fresh "Hw" in
      let Hs := fresh "Hs" in
      pose proof (apiClient_world a f e o w) as Hw;
      pose proof (apiClient_resolved_no_snake a f e o w) as Hs;
      let out := fresh "out" in
      let w1 := fresh "w" in
      destruct (apiClient a f e o w) as [out w1];
      cbn in Hw, Hs; subst w1; destruct out as [?data|?err]; cbn
  end.

Ltac flag_step :=
  match goal with
  | |- context [negb (?c ?n)] => destruct (c n); cbn
  end.

Ltac storage_case :=
  first [ by left
        | right; left; by rewrite ?lookup_delete_ne, ?lookup_delete_eq by done
        | right; right; by rewrite ?lookup_insert_ne, ?lookup_insert_eq by done ].

(** Whatever the network answers and whenever the effect is cleaned up,
    a token returned by the refresh endpoint is never what [restoreSession]
    leaves in storage: each token key ends as it was, absent, or holding
    the text ["undefined"]. *)
Lemma restoreSession_never_stores_tokens API_BASE_URL fetch cancelled w k :
  k = "access_token" \/ k = "refresh_token" ->
  localStorage (snd (restoreSession API_BASE_URL fetch cancelled w)) !! k
  = localStorage w !! k
  \/ localStorage (snd (restoreSession API_BASE_URL fetch cancelled w)) !! k = None
  \/ localStorage (snd (restoreSession API_BASE_URL fetch cancelled w)) !! k
     = Some "undefined".
Proof.
  intros Hk. unfold restoreSession, bind, getItem.
  destruct (truthy (ofItem (localStorage w !! "access_token"))); cbn; [|by left].
  unfold tryFinally, tryCatch, bind, api_get, api_post, unlessCancelled, lift,
    setUser, setLoading, ret, throw.
  call_step.
  - repeat flag_step; try (by left).
    all: destruct (getProp data "id"); cbn; repeat flag_step; by left.
  - destruct (is_401 err); cbn; [|repeat flag_step; by left].
    destruct (truthy (ofItem (localStorage w !! "refresh_token"))); cbn.
    2:{ repeat flag_step; destruct Hk as [-> | ->]; storage_case. }
    clear Hs. call_step.
    2:{ repeat flag_step; destruct Hk as [-> | ->]; storage_case. }
    destruct (Hs data "access_token" eq_refl eq_refl) as [Ha|Ha]; rewrite Ha; cbn.
    { repeat flag_step; destruct Hk as [-> | ->]; storage_case. }
    destruct (Hs data "refresh_token" eq_refl eq_refl) as [Hr|Hr]; rewrite Hr; cbn.
    { repeat flag_step; destruct Hk as [-> | ->]; storage_case. }
    clear Hs. call_step.
    2:{ repeat flag_step; destruct Hk as [-> | ->]; storage_case. }
    repeat flag_step.
    all: try destruct (getProp data0 "id"); cbn; repeat flag_step.
    all: destruct Hk as [-> | ->]; storage_case.
Qed.

(* ===================================================================== *)
(** * Further properties of the codec *)
(* ===================================================================== *)

Lemma snakeToCamel_fixed s : has_boundary s = false -> snakeToCamel s = s.
Proof.
  induction s as [|c|c d s IHs IHd] using string_pair_ind; [done| |].
  - cbn. by destruct (is_underscore c).
  - cbn [has_boundary starts_lower].
    intros [Hhead Hrest]%orb_false_iff.
    destruct (is_underscore c) eqn:Hu.
    + apply is_underscore_spec in Hu as ->. cbn in Hhead.
      rewrite snakeToCamel_lone by done. f_equal. by apply IHd.
    + rewrite snakeToCamel_copy by done. f_equal. by apply IHd.
Qed.

Lemma camelToSnake_no_upper s : no_upper (camelToSnake s) = true.
Proof.
  induction s as [|c s IH]; [done|].
  destruct (is_upper c) eqn:Hc.
  - rewrite camelToSnake_split by done. cbn [no_upper]. rewrite IH.
    rewrite (lower_not_upper (toLowerCase c)) by (by apply toLowerCase_lower).
    reflexivity.
  - rewrite camelToSnake_copy by done. cbn. by rewrite Hc, IH.
Qed.

Lemma camelToSnake_fixed s : no_upper s = true -> camelToSnake s = s.
Proof.
  induction s as [|c s IH]; [done|]. cbn [no_upper].
  intros [Hc Hs]%andb_true_iff. apply negb_true_iff in Hc.
  rewrite camelToSnake_copy by done. f_equal. by apply IH.
Qed.

(** X1. A key survives the trip to the wire convention and back,
    [snakeToCamel (camelToSnake k) = k], exactly when it contains no
    underscore followed by a lowercase letter; it survives the opposite
    trip, [camelToSnake (snakeToCamel k) = k], exactly when it contains no
    uppercase letter. *)
Theorem key_round_trips k :
  (snakeToCamel (camelToSnake k) = k <-> has_boundary k = false)
  /\ (camelToSnake (snakeToCamel k) = k <-> no_upper k = true).
Proof.
  split; split.
  - intros <-. rewrite snakeToCamel_camelToSnake. apply snakeToCamel_no_boundary.
  - intros Hk. rewrite snakeToCamel_camelToSnake. by apply snakeToCamel_fixed.
  - intros <-. rewrite camelToSnake_snakeToCamel. apply camelToSnake_no_upper.
  - intros Hk. rewrite camelToSnake_snakeToCamel. by apply camelToSnake_fixed.
Qed.

(** X2. [keysToCamel] is idempotent on every value: decoding a decoded
    payload changes nothing. *)
Theorem keysToCamel_idempotent x : keysToCamel (keysToCamel x) = keysToCamel x.
Proof.
  assert (Hk : forall k, snakeToCamel (snakeToCamel k) = snakeToCamel k)
    by (intros k; apply snakeToCamel_fixed, snakeToCamel_no_boundary).
  induction x as [ | | | | | |items IH|props IH] using value_nested_ind;
    try reflexivity.
  - cbn. f_equal. rewrite map_map. by apply map_ext_Forall.
  - cbn. f_equal. rewrite fromEntries_twice.
    + f_equal. by apply map_entries_ext.
    + intros k k'. by rewrite !Hk.
Qed.

(** What a rebuilt object is made of: each of its entries is one of the
    entries it was built from. *)
Lemma buildFrom_entries es acc kv :
  kv ∈ buildFrom es acc -> kv ∈ acc \/ kv ∈ es.
Proof.
  revert acc. induction es as [|[k v] es IH]; intros acc Hin; [by left|].
  cbn in Hin. apply IH in Hin as [Hin|Hin]; [|right; by right].
  assert (Hdef : forall o, kv ∈ defineProperty k v o -> kv ∈ o \/ kv = (k, v)).
  { clear. induction o as [|[k' v'] o IHo]; cbn.
    - intros ->%list_elem_of_singleton. by right.
    - case_bool_decide as Hk.
      + subst k'. intros [->|Hin]%elem_of_cons; [by right|]. left. by right.
      + intros [->|Hin]%elem_of_cons; [left; by left|].
        apply IHo in Hin as [Hin| ->]; [left; by right|by right]. }
  apply Hdef in Hin as [Hin| ->]; [by left|]. right. by left.
Qed.

Lemma fromEntries_entries es kv : kv ∈ fromEntries es -> kv ∈ es.
Proof.
  intros [Hin|Hin]%buildFrom_entries; [by apply elem_of_nil in Hin|done].
Qed.

Lemma walker_every_key (P : string -> bool) (f : string -> string)
    (F : value -> value) props :
  (forall k, P (f k) = true) ->
  Forall (fun kv => every_key P (F (snd kv)) = true) props ->
  forallb (fun '(k, v) => P k && every_key P v)
    (fromEntries (map (fun '(k, v) => (f k, F v)) props)) = true.
Proof.
  intros HP HF. apply forallb_forall. intros [k' v'] Hin.
  apply list_elem_of_In, fromEntries_entries, list_elem_of_fmap in Hin
    as ([k v] & [= -> ->] & Hin).
  rewrite HP. cbn. rewrite Forall_forall in HF. by apply (HF (k, v)).
Qed.

Lemma walkers_keys x :
  every_key no_upper (keysToSnake x) = true
  /\ every_key (fun k => negb (has_boundary k)) (keysToCamel x) = true.
Proof.
  induction x as [ | | | | | |items IH|props IH] using value_nested_ind;
    try (split; reflexivity).
  - cbn. rewrite !forallb_forall. split; intros y Hy.
    all: apply in_map_iff in Hy as (x & <- & Hx).
    all: rewrite Forall_forall in IH; by apply (IH x), list_elem_of_In.
  - cbn. split.
    + apply walker_every_key; [apply camelToSnake_no_upper|].
      eapply Forall_impl; [exact IH|]. by intros kv [? ?].
    + apply walker_every_key.
      * intros k. by rewrite snakeToCamel_no_boundary.
      * eapply Forall_impl; [exact IH|]. by intros kv [? ?].
Qed.

(** X3. Whatever the body, no key of [keysToSnake]'s result, at any depth,
    contains an uppercase letter; and no key of [keysToCamel]'s result, at
    any depth, contains an underscore followed by a lowercase letter. *)
Theorem walkers_key_alphabet x :
  every_key no_upper (keysToSnake x) = true
  /\ every_key (fun k => negb (has_boundary k)) (keysToCamel x) = true.
Proof. apply walkers_keys. Qed.

Lemma walker_distinct_keys (f : string -> string) (F : value -> value) props :
  Forall (fun kv => distinct_keys (F (snd kv)) = true) props ->
  bool_decide (NoDup (map fst (fromEntries (map (fun '(k, v) => (f k, F v)) props))))
  && forallb (fun '(k, v) => distinct_keys v)
       (fromEntries (map (fun '(k, v) => (f k, F v)) props)) = true.
Proof.
  intros HF. apply andb_true_iff. split.
  - apply bool_decide_eq_true, fromEntries_NoDup.
  - apply forallb_forall. intros [k' v'] Hin.
    apply list_elem_of_In, fromEntries_entries, list_elem_of_fmap in Hin
      as ([k v] & [= -> ->] & Hin).
    rewrite Forall_forall in HF. by apply (HF (k, v)).
Qed.

(** X4. The result of either walker is a well-formed structure: no object
    in it, at any depth, lists a key twice, even when the input did or when
    several keys were rewritten to one. *)
Theorem walkers_distinct_keys x :
  distinct_keys (keysToSnake x) = true /\ distinct_keys (keysToCamel x) = true.
Proof.
  induction x as [ | | | | | |items IH|props IH] using value_nested_ind;
    try (split; reflexivity).
  - cbn. rewrite !forallb_forall. split; intros y Hy.
    all: apply in_map_iff in Hy as (x & <- & Hx).
    all: rewrite Forall_forall in IH; by apply (IH x), list_elem_of_In.
  - cbn. split; apply walker_distinct_keys.
    all: eapply Forall_impl; [exact IH|]; by intros kv [? ?].
Qed.

Lemma lookupProperty_app name o1 o2 :
  lookupProperty name (o1 ++ o2)
  = match lookupProperty name o1 with
    | Some v => Some v
    | None => lookupProperty name o2
    end.
Proof.
  induction o1 as [|[k v] o1 IH]; [done|]. cbn. by case_bool_decide.
Qed.

Lemma lookupProperty_defineProperty name k v o :
  lookupProperty name (defineProperty k v o)
  = if bool_decide (k = name) then Some v else lookupProperty name o.
Proof.
  induction o as [|[k' v'] o IH]; cbn; [done|].
  destruct (bool_decide_reflect (k' = k)) as [->|Hne]; cbn.
  - by case_bool_decide.
  - rewrite IH. case_bool_decide as Hk; [|done].
    subst name. by rewrite bool_decide_eq_false_2.
Qed.

(** [Object.fromEntries] is last-wins: a key reads as in the entries taken
    from the last one backwards. *)
Lemma buildFrom_lookup name es acc :
  lookupProperty name (buildFrom es acc)
  = match lookupProperty name (rev es) with
    | Some v => Some v
    | None => lookupProperty name acc
    end.
Proof.
  revert acc. induction es as [|[k v] es IH]; intros acc; [done|].
  cbn [buildFrom fold_left rev]. change (fold_left _ es ?a) with (buildFrom es a).
  rewrite IH, lookupProperty_app, lookupProperty_defineProperty. cbn.
  destruct (lookupProperty name (rev es)); [done|]. by case_bool_decide.
Qed.

(** X5. When several keys of an object camelize to one name, the decoded
    object holds that name once, with the decoded value of the last of
    them: for an entry [(k, v)] after which no key camelizes to
    [snakeToCamel k], reading [snakeToCamel k] from the decoded object gives
    [keysToCamel v], whatever came before. *)
Theorem keysToCamel_last_wins before k v after :
  Forall (fun kv => snakeToCamel (fst kv) <> snakeToCamel k) after ->
  getProp (keysToCamel (VObj (before ++ (k, v) :: after))) (snakeToCamel k)
  = inr (keysToCamel v).
Proof.
  intros Hafter. cbn. f_equal. unfold fromEntries.
  rewrite buildFrom_lookup, map_app. cbn [map].
  rewrite rev_app_distr. cbn [rev]. rewrite <- app_assoc.
  rewrite lookupProperty_app, lookupProperty_absent.
  - cbn. by rewrite bool_decide_eq_true_2.
  - intros Hin. apply list_elem_of_In in Hin.
    rewrite <- !map_rev, map_map in Hin.
    apply in_map_iff in Hin as ([k' v'] & Heq & Hin).
    apply (proj2 (in_rev _ _)), list_elem_of_In in Hin. cbn in Heq.
    rewrite Forall_forall in Hafter. by apply (Hafter (k', v')).
Qed.

Lemma keysToCamel_last_wins_witness :
  getProp (keysToCamel (VObj Sample.colliding)) "baseCurrency" = inr (VStr "USD").
Proof.
  apply (keysToCamel_last_wins
           [("base_currency", VStr "KWD"); ("id", VStr "p1")]
           "baseCurrency" (VStr "USD") []).
  constructor.
Defined.

Lemma keysToSnake_snake_keyed x :
  keys_ok snake_key x = true -> keysToSnake x = x.
Proof.
  induction x as [ | | | | | |items IH|props IH] using value_nested_ind;
    try reflexivity.
  - cbn. intros Hall. f_equal.
    rewrite <- (map_id items) at 2. apply map_ext_Forall.
    rewrite forallb_forall in Hall.
    rewrite Forall_forall in IH |- *. intros x Hx.
    apply IH; [done|]. apply Hall. by apply list_elem_of_In.
  - cbn. intros [Hall Hnd]%andb_true_iff. f_equal.
    apply bool_decide_eq_true in Hnd.
    rewrite forallb_forall in Hall.
    rewrite (map_ext_Forall _ id).
    + rewrite map_id. by apply fromEntries_distinct.
    + rewrite Forall_forall in IH |- *. intros [k v] Hin.
      specialize (Hall (k, v) (proj1 (list_elem_of_In _ _) Hin)).
      cbn in Hall. apply andb_true_iff in Hall as [Hk Hv].
      cbn. rewrite camelToSnake_snake_key by done.
      f_equal. by apply (IH (k, v)).
Qed.

(** X6. A wire payload whose keys are all snake_case (no uppercase letter,
    every underscore followed by a lowercase letter) comes back exactly
    from the trip to the local convention:
    [keysToSnake (keysToCamel x) = x]. *)
Theorem keysToSnake_keysToCamel_snake_keyed x :
  keys_ok snake_key x = true -> keysToSnake (keysToCamel x) = x.
Proof.
  intros Hx. rewrite keysToSnake_keysToCamel. by apply keysToSnake_snake_keyed.
Qed.

Lemma keysToSnake_keysToCamel_snake_keyed_witness :
  keysToSnake (keysToCamel Sample.snake_payload) = Sample.snake_payload.
Proof.
  apply (keysToSnake_keysToCamel_snake_keyed Sample.snake_payload). reflexivity.
Defined.

Lemma defineProperty_length k v o :
  length (defineProperty k v o)
  = if bool_decide (k ∈ map fst o) then length o else S (length o).
Proof.
  rewrite <- !(length_map fst), defineProperty_keys.
  case_bool_decide; [done|]. rewrite length_app. cbn. lia.
Qed.

Lemma buildFrom_length es acc :
  (length (buildFrom es acc) <= length acc + length es)%nat
  /\ (length (buildFrom es acc) = (length acc + length es)%nat
      <-> NoDup (map fst es) /\ forall k, k ∈ map fst es -> k ∉ map fst acc).
Proof.
  revert acc. induction es as [|[k v] es IH]; intros acc.
  - cbn. split; [lia|]. split; [|lia]. intros _. split; [constructor|].
    intros k Hk. by apply elem_of_nil in Hk.
  - cbn [buildFrom fold_left fst snd].
    change (fold_left _ es ?a) with (buildFrom es a).
    destruct (IH (defineProperty k v acc)) as [Hle Hiff].
    rewrite defineProperty_length in Hle, Hiff.
    rewrite defineProperty_keys in Hiff.
    cbn [length map fst].
    destruct (bool_decide_reflect (k ∈ map fst acc)) as [Hk|Hk].
    + split; [lia|]. split; [lia|]. intros [_ Hdisj].
      exfalso. apply (Hdisj k); [by left|done].
    + split; [lia|].
      replace (length acc + S (length es))%nat with (S (length acc) + length es)%nat
        by lia.
      rewrite Hiff. rewrite NoDup_cons. split.
      * intros [Hnd Hdisj]. split; [split; [|done]|].
        -- intros Hin. apply (Hdisj k Hin), elem_of_app. right. by left.
        -- intros k' [->|Hin]%elem_of_cons; [done|].
           intros Hacc. apply (Hdisj k' Hin), elem_of_app. by left.
      * intros [[Hnk Hnd] Hdisj]. split; [done|].
        intros k' Hin [Hacc| ->%list_elem_of_singleton]%elem_of_app; [|done].
        apply (Hdisj k'); [by right|done].
Qed.

(** X7. Decoding an object never adds properties, and it keeps their number
    exactly when the camelized keys are pairwise distinct: keys that
    camelize to one name are merged into one property. *)
Theorem keysToCamel_property_count props :
  exists decoded,
    keysToCamel (VObj props) = VObj decoded
    /\ (length decoded <= length props)%nat
    /\ (length decoded = length props
        <-> NoDup (map (fun kv => snakeToCamel (fst kv)) props)).
Proof.
  eexists. split; [reflexivity|].
  destruct (buildFrom_length
              (map (fun '(k, v) => (snakeToCamel k, keysToCamel v)) props) [])
    as [Hle Hiff].
  rewrite length_map in Hle, Hiff. cbn in Hle, Hiff.
  split; [exact Hle|]. unfold fromEntries. rewrite Hiff.
  rewrite map_map.
  rewrite (map_ext (fun x => fst (let '(k, v) := x in (snakeToCamel k, keysToCamel v)))
             (fun kv => snakeToCamel (fst kv))) by (by intros [? ?]).
  split; [by intros [? _]|]. intros Hnd. split; [done|].
  intros k _ Hk. by apply elem_of_nil in Hk.
Qed.

(* ===================================================================== *)
(** * Further properties of the transport layer *)
(* ===================================================================== *)

(** X8. Whatever the network does and however the call ends, a transport
    call writes neither [localStorage] nor the session state, and it issues
    exactly one request. *)
Theorem apiClient_leaves_state API_BASE_URL fetch endpoint options w :
  localStorage (snd (apiClient API_BASE_URL fetch endpoint options w))
  = localStorage w
  /\ user (snd (apiClient API_BASE_URL fetch endpoint options w)) = user w
  /\ loading (snd (apiClient API_BASE_URL fetch endpoint options w)) = loading w
  /\ exists req,
       sent (snd (apiClient API_BASE_URL fetch endpoint options w))
       = sent w ++ [req].
Proof. rewrite apiClient_world. cbn. split_and!; eauto. Qed.

(** X9. When the exchange never reaches a server ([fetch] rejects), the
    call rejects with the [ApiError] of status 0, code ["NETWORK_ERROR"]
    and message ["Unable to connect to server"]. *)
Theorem apiClient_offline API_BASE_URL fetch endpoint options w :
  fetch (length (sent w)) (outgoing API_BASE_URL endpoint options (localStorage w))
  = FetchRejected ->
  fst (apiClient API_BASE_URL fetch endpoint options w)
  = Rejected (ExApiError
                (ApiError.new_raw 0 (VStr "NETWORK_ERROR")
                   "Unable to connect to server")).
Proof. intros Hf. by rewrite apiClient_network_error. Qed.

Lemma apiClient_offline_witness :
  fst (apiClient "" Sample.offline "/api/portfolios" no_options (initial_world ∅))
  = Rejected (ExApiError
                (ApiError.new_raw 0 (VStr "NETWORK_ERROR")
                   "Unable to connect to server")).
Proof.
  apply (apiClient_offline "" Sample.offline "/api/portfolios" no_options
           (initial_world ∅)).
  reflexivity.
Defined.

(** X10. A 204 answer resolves with [undefined] and its body is never
    read, whether or not it would parse. *)
Theorem apiClient_204 API_BASE_URL fetch endpoint options w r :
  fetch (length (sent w)) (outgoing API_BASE_URL endpoint options (localStorage w))
  = FetchResolved r ->
  Response.status r = 204 ->
  fst (apiClient API_BASE_URL fetch endpoint options w) = Resolved VUndefined.
Proof.
  intros Hf H204. apply (apiClient_no_content _ _ _ _ _ r); [done| |done].
  unfold Response.ok. by rewrite H204.
Qed.

Lemma apiClient_204_witness :
  fst (apiClient "" (Scenario.answer Sample.no_content) "/api/portfolios/p1"
         {| opt_method := Some DELETE; opt_body := VUndefined; opt_headers := None |}
         (initial_world ∅))
  = Resolved VUndefined.
Proof.
  apply (apiClient_204 "" (Scenario.answer Sample.no_content) "/api/portfolios/p1"
           _ (initial_world ∅) Sample.no_content); reflexivity.
Defined.

(** X11. On a 2xx answer other than 204 whose body parses to a JSON value
    other than [null], the call resolves with the camelized [data] property
    of the body when the body has one (also when it is [null]) and with the
    camelized body otherwise. *)
Theorem apiClient_envelope API_BASE_URL fetch endpoint options w r j :
  fetch (length (sent w)) (outgoing API_BASE_URL endpoint options (localStorage w))
  = FetchResolved r ->
  Response.ok r = true -> Response.status r <> 204 ->
  Response.json r = Some j -> j <> VNull -> j <> VUndefined ->
  fst (apiClient API_BASE_URL fetch endpoint options w)
  = Resolved (keysToCamel (match getPropOpt j "data" with
                           | VUndefined => j
                           | d => d
                           end)).
Proof. intros. by apply (apiClient_decodes _ _ _ _ _ r). Qed.

Lemma apiClient_envelope_witness :
  fst (apiClient "" (Scenario.answer Scenario.enveloped) "/api/x" no_options
         (initial_world ∅))
  = Resolved (VObj [("a", VNum 1)]).
Proof.
  apply (apiClient_envelope "" (Scenario.answer Scenario.enveloped) "/api/x"
           no_options (initial_world ∅) Scenario.enveloped
           (VObj [("success", VBool true); ("data", VObj [("a", VNum 1)])]));
    try reflexivity; discriminate.
Defined.

(** X12. A call resolves only on a 2xx answer: after a connection failure
    or an answer with any other status it never resolves. *)
Theorem apiClient_resolves_only_on_success
    API_BASE_URL fetch endpoint options w v :
  fst (apiClient API_BASE_URL fetch endpoint options w) = Resolved v ->
  exists r,
    fetch (length (sent w)) (outgoing API_BASE_URL endpoint options (localStorage w))
    = FetchResolved r
    /\ Response.ok r = true.
Proof.
  destruct (fetch (length (sent w))
              (outgoing API_BASE_URL endpoint options (localStorage w)))
    as [|r] eqn:Hf.
  - by rewrite apiClient_network_error.
  - intros Hres. exists r. split; [done|].
    destruct (Response.ok r) eqn:Hok; [done|].
    assert ((Response.json r = Some VNull \/ Response.json r = Some VUndefined)
            \/ (Response.json r <> Some VNull /\ Response.json r <> Some VUndefined))
      as [Hnull|[Hn Hu]]
      by (destruct (Response.json r) as [[]|];
          first [left; auto; fail | right; split; congruence]).
    + by rewrite (apiClient_http_error_null _ _ _ _ _ r) in Hres.
    + by rewrite (apiClient_http_error _ _ _ _ _ r) in Hres.
Qed.

Lemma apiClient_resolves_only_on_success_witness :
  exists r,
    Scenario.answer Scenario.bare 0%nat
      (outgoing "" "/api/x" no_options (localStorage (initial_world ∅)))
    = FetchResolved r
    /\ Response.ok r = true.
Proof.
  apply (apiClient_resolves_only_on_success "" (Scenario.answer Scenario.bare)
           "/api/x" no_options (initial_world ∅) (VObj [("a", VNum 1)])).
  reflexivity.
Defined.

Lemma orElse_truthy a b : truthy b = true -> truthy (orElse a b) = true.
Proof. intros Hb. unfold orElse. by destruct (truthy a) eqn:Ha. Qed.

(** X13. Every [ApiError] a call rejects with has a truthy code, and its
    status tells what happened: either the connection failed (status 0,
    code ["NETWORK_ERROR"]), or a server answered with that very status,
    which is outside 200..299. In particular an error of status 401 means
    the server answered 401. *)
Theorem apiClient_ApiError_status API_BASE_URL fetch endpoint options w a :
  fst (apiClient API_BASE_URL fetch endpoint options w) = Rejected (ExApiError a) ->
  truthy (ApiError.code a) = true
  /\ ((fetch (length (sent w))
         (outgoing API_BASE_URL endpoint options (localStorage w)) = FetchRejected
       /\ ApiError.status a = 0 /\ ApiError.code a = VStr "NETWORK_ERROR")
      \/ exists r,
           fetch (length (sent w))
             (outgoing API_BASE_URL endpoint options (localStorage w))
           = FetchResolved r
           /\ Response.ok r = false
           /\ ApiError.status a = Response.status r).
Proof.
  destruct (fetch (length (sent w))
              (outgoing API_BASE_URL endpoint options (localStorage w)))
    as [|r] eqn:Hf.
  - rewrite apiClient_network_error by done. intros [= <-]. split; [done|].
    left. done.
  - assert ((Response.json r = Some VNull \/ Response.json r = Some VUndefined)
            \/ (Response.json r <> Some VNull /\ Response.json r <> Some VUndefined))
      as [Hnull|[Hn Hu]]
      by (destruct (Response.json r) as [[]|];
          first [left; auto; fail | right; split; congruence]).
    all: destruct (Response.ok r) eqn:Hok;
      [destruct (decide (Response.status r = 204)) as [H204|H204] |].
    all: try (by rewrite (apiClient_no_content _ _ _ _ _ r)).
    + by rewrite (apiClient_null _ _ _ _ _ r).
    + by rewrite (apiClient_http_error_null _ _ _ _ _ r).
    + destruct (Response.json r) as [j|] eqn:Hj.
      * by rewrite (apiClient_decodes _ _ _ _ _ r Hf j) by congruence.
      * by rewrite (apiClient_unparseable _ _ _ _ _ r).
    + rewrite (apiClient_http_error _ _ _ _ _ r) by done. intros [= <-].
      split; [by apply orElse_truthy|]. right. exists r. done.
Qed.

Lemma apiClient_ApiError_status_witness :
  exists r,
    Scenario.answer Sample.unauthorized 0%nat
      (outgoing "" "/api/auth/profile" no_options
         (localStorage (initial_world Scenario.stored_session)))
    = FetchResolved r
    /\ Response.ok r = false
    /\ 401 = Response.status r.
Proof.
  destruct (apiClient_ApiError_status "" (Scenario.answer Sample.unauthorized)
              "/api/auth/profile" no_options
              (initial_world Scenario.stored_session)
              (ApiError.new_raw 401 (VStr "UNKNOWN") "Unauthorized") eq_refl)
    as [_ [[Hrej _]|Hans]].
  - discriminate Hrej.
  - exact Hans.
Defined.

(** X14. The headers of the request: every header the caller supplies is
    sent with the caller's value, also [Content-Type] and [Authorization];
    without a caller's [Content-Type] the request carries
    [Content-Type: application/json]. *)
Theorem apiClient_caller_headers API_BASE_URL endpoint options ls :
  (forall h v, default ∅ (opt_headers options) !! h = Some v ->
     Request.headers (outgoing API_BASE_URL endpoint options ls) !! h = Some v)
  /\ (default ∅ (opt_headers options) !! "Content-Type" = None ->
      Request.headers (outgoing API_BASE_URL endpoint options ls) !! "Content-Type"
      = Some "application/json").
Proof.
  unfold outgoing. cbn [Request.headers]. rewrite getAuthHeaders_spec.
  cbn [fst localStorage initial_world]. split.
  - intros h v Hh. by apply lookup_union_Some_l.
  - intros Hnone. rewrite lookup_union_r by done.
    rewrite lookup_union_r; [done|].
    destruct (ls !! "access_token") as [t|]; [case_bool_decide|]; done.
Qed.

(** X15. The body a request carries: a falsy body ([undefined], [null],
    [false], [0], the empty string) is not sent at all; any other body is
    sent as [keysToSnake body], in which no key at any depth has an
    uppercase letter. *)
Theorem apiClient_wire_body API_BASE_URL fetch endpoint options w :
  exists req,
    sent (snd (apiClient API_BASE_URL fetch endpoint options w)) = sent w ++ [req]
    /\ match Request.body req with
       | None => truthy (opt_body options) = false
       | Some b =>
           truthy (opt_body options) = true
           /\ b = keysToSnake (opt_body options)
           /\ every_key no_upper b = true
       end.
Proof.
  eexists. split; [by rewrite apiClient_world|].
  unfold outgoing. cbn [Request.body].
  destruct (truthy (opt_body options)); [|done].
  split_and!; [done..|]. apply walkers_keys.
Qed.

(* ===================================================================== *)
(** * Further properties of the session lifecycle manager *)
(* ===================================================================== *)

Ltac session_unfold :=
  unfold tryFinally, tryCatch, bind, api_get, api_post, unlessCancelled, lift,
    setUser, setLoading, setItem, getItem, ret, throw.

(** X16. [restoreSession] never rejects: whatever the network answers,
    whatever the payloads look like and whenever the effect is cleaned up,
    every exception is absorbed and the run resolves. *)
Theorem restoreSession_never_rejects API_BASE_URL fetch cancelled w :
  fst (restoreSession API_BASE_URL fetch cancelled w) = Resolved tt.
Proof.
  unfold restoreSession, bind, getItem.
  destruct (truthy (ofItem (localStorage w !! "access_token"))); cbn; [|done].
  session_unfold.
  call_step.
  - repeat flag_step; try done.
    all: destruct (getProp data "id"); cbn; repeat flag_step; done.
  - destruct (is_401 err); cbn; [|repeat flag_step; done].
    destruct (truthy (ofItem (localStorage w !! "refresh_token"))); cbn.
    2:{ repeat flag_step; done. }
    clear Hs. call_step.
    2:{ repeat flag_step; done. }
    destruct (Hs data "access_token" eq_refl eq_refl) as [Ha|Ha]; rewrite Ha; cbn.
    { repeat flag_step; done. }
    destruct (Hs data "refresh_token" eq_refl eq_refl) as [Hr|Hr]; rewrite Hr; cbn.
    { repeat flag_step; done. }
    clear Hs. call_step.
    2:{ repeat flag_step; done. }
    repeat flag_step.
    all: try destruct (getProp data0 "id"); cbn; repeat flag_step; done.
Qed.

(** X17. Without a stored access token (the key is absent or holds the
    empty string) [restoreSession] issues no request, leaves storage and
    the user as they are and sets [loading] to false; this path has no
    [cancelled] guard. *)
Theorem restoreSession_without_token API_BASE_URL fetch cancelled w :
  localStorage w !! "access_token" = None
  \/ localStorage w !! "access_token" = Some "" ->
  restoreSession API_BASE_URL fetch cancelled w
  = (Resolved tt,
     {| localStorage := localStorage w; user := user w; loading := false;
        sent := sent w |}).
Proof.
  intros Htoken. unfold restoreSession, bind, getItem.
  by destruct Htoken as [-> | ->].
Qed.

Lemma restoreSession_without_token_witness :
  restoreSession "" Sample.offline Scenario.always (initial_world ∅)
  = (Resolved tt,
     {| localStorage := ∅; user := VNull; loading := false; sent := [] |}).
Proof.
  apply (restoreSession_without_token "" Sample.offline Scenario.always
           (initial_world ∅)).
  left. reflexivity.
Defined.

(** X18. With a stored token, when the profile call resolves with a
    payload that is neither [null] nor [undefined] and the effect has not
    been cleaned up, [restoreSession] sets the user to the payload's [id]
    (whatever it is, [undefined] when there is none) with the cached email,
    sets [loading] to false, leaves storage untouched and has issued that
    one request only. *)
Theorem restoreSession_valid_token API_BASE_URL fetch cancelled w profile id :
  truthy (ofItem (localStorage w !! "access_token")) = true ->
  fst (api_get API_BASE_URL fetch "/api/auth/profile" w) = Resolved profile ->
  getProp profile "id" = inr id ->
  cancelled (S (length (sent w))) = false ->
  fst (restoreSession API_BASE_URL fetch cancelled w) = Resolved tt
  /\ localStorage (snd (restoreSession API_BASE_URL fetch cancelled w))
     = localStorage w
  /\ user (snd (restoreSession API_BASE_URL fetch cancelled w))
     = VObj [("id", id);
             ("email", VStr (default "" (localStorage w !! "user_email")))]
  /\ loading (snd (restoreSession API_BASE_URL fetch cancelled w)) = false
  /\ newUrls w (snd (restoreSession API_BASE_URL fetch cancelled w))
     = [API_BASE_URL +:+ "/api/auth/profile"].
Proof.
  intros Htoken Hok Hid Hc.
  unfold newUrls, restoreSession, bind, getItem. rewrite Htoken. cbn [negb].
  unfold tryFinally, tryCatch, bind. unfold api_get in *.
  pose proof (apiClient_world API_BASE_URL fetch "/api/auth/profile" no_options w)
    as Hw.
  destruct (apiClient API_BASE_URL fetch "/api/auth/profile" no_options w)
    as [out w1].
  cbn in Hok, Hw. subst out w1.
  unfold unlessCancelled, setUser, setLoading, lift, bind, ret. cbn [sent].
  rewrite !length_app, !Nat.add_1_r, Hc, Hid. cbn.
  rewrite ?length_app, ?Nat.add_1_r, ?Hc. cbn.
  rewrite cached_email, drop_app_length. done.
Qed.

Lemma restoreSession_valid_token_witness :
  user (snd (restoreSession "" (Scenario.answer Sample.profile) Scenario.never
               (initial_world Scenario.stored_session)))
  = VObj [("id", VStr "u1"); ("email", VStr "a@b.com")]
  /\ loading (snd (restoreSession "" (Scenario.answer Sample.profile) Scenario.never
                     (initial_world Scenario.stored_session)))
     = false.
Proof.
  destruct (restoreSession_valid_token "" (Scenario.answer Sample.profile)
              Scenario.never (initial_world Scenario.stored_session)
              (VObj [("id", VStr "u1"); ("displayName", VNull);
                     ("baseCurrency", VStr "KWD")])
              (VStr "u1") eq_refl eq_refl eq_refl eq_refl)
    as (_ & _ & Hu & Hl & _).
  split; [exact Hu|exact Hl].
Defined.

(** X19. With a stored token, when the profile call fails with a 401
    [ApiError] and no refresh token is stored (absent or empty), no refresh
    is attempted: after that one request the three credential keys are
    removed and nothing else in storage changes, the user is left as it
    was, and [loading] becomes false unless the effect was cleaned up.
    Storage is cleared whether or not the effect was cleaned up. *)
Theorem restoreSession_401_without_refresh_token
    API_BASE_URL fetch cancelled w err :
  truthy (ofItem (localStorage w !! "access_token")) = true ->
  fst (api_get API_BASE_URL fetch "/api/auth/profile" w) = Rejected err ->
  is_401 err = true ->
  truthy (ofItem (localStorage w !! "refresh_token")) = false ->
  localStorage (snd (restoreSession API_BASE_URL fetch cancelled w))
  = delete "user_email"
      (delete "refresh_token" (delete "access_token" (localStorage w)))
  /\ user (snd (restoreSession API_BASE_URL fetch cancelled w)) = user w
  /\ newUrls w (snd (restoreSession API_BASE_URL fetch cancelled w))
     = [API_BASE_URL +:+ "/api/auth/profile"]
  /\ (cancelled (S (length (sent w))) = false ->
      loading (snd (restoreSession API_BASE_URL fetch cancelled w)) = false).
Proof.
  intros Htoken Hfail H401 Hrefresh.
  unfold newUrls, restoreSession, bind, getItem. rewrite Htoken. cbn [negb].
  unfold tryFinally, tryCatch, bind. unfold api_get in *.
  pose proof (apiClient_world API_BASE_URL fetch "/api/auth/profile" no_options w)
    as Hw.
  destruct (apiClient API_BASE_URL fetch "/api/auth/profile" no_options w)
    as [out w1].
  cbn in Hfail, Hw. subst out w1. rewrite H401. cbn [localStorage].
  rewrite Hrefresh. rewrite clearAuth_spec.
  unfold unlessCancelled, setLoading. cbn [sent localStorage user].
  rewrite !length_app, !Nat.add_1_r.
  destruct (cancelled (S (length (sent w)))) eqn:Hc; cbn;
    rewrite drop_app_length; split_and!; try reflexivity; done.
Qed.

Lemma restoreSession_401_without_refresh_token_witness :
  localStorage (snd (restoreSession "" (Scenario.answer Sample.unauthorized)
                       Scenario.never (initial_world Sample.only_access)))
  = {[ "theme" := "dark" ]}
  /\ user (snd (restoreSession "" (Scenario.answer Sample.unauthorized)
                  Scenario.never (initial_world Sample.only_access)))
     = VNull.
Proof.
  destruct (restoreSession_401_without_refresh_token ""
              (Scenario.answer Sample.unauthorized) Scenario.never
              (initial_world Sample.only_access)
              (ExApiError (ApiError.new_raw 401 (VStr "UNKNOWN") "Unauthorized"))
              eq_refl eq_refl eq_refl eq_refl)
    as (Hls & Hu & _).
  split; [|exact Hu].
  etransitivity; [exact Hls|]. vm_compute. reflexivity.
Defined.

(** X20. With a stored token and a stored refresh token, when the profile
    call fails with a 401 [ApiError] and the refresh call rejects, for
    whatever reason, the profile is not asked for again: after those two
    requests the three credential keys are removed and nothing else in
    storage changes, and the user is left as it was. *)
Theorem restoreSession_refresh_rejected
    API_BASE_URL fetch cancelled w err err' :
  truthy (ofItem (localStorage w !! "access_token")) = true ->
  fst (api_get API_BASE_URL fetch "/api/auth/profile" w) = Rejected err ->
  is_401 err = true ->
  truthy (ofItem (localStorage w !! "refresh_token")) = true ->
  fst (api_post API_BASE_URL fetch "/api/auth/refresh"
         (VObj [("refreshToken", ofItem (localStorage w !! "refresh_token"))])
         (snd (api_get API_BASE_URL fetch "/api/auth/profile" w)))
  = Rejected err' ->
  localStorage (snd (restoreSession API_BASE_URL fetch cancelled w))
  = delete "user_email"
      (delete "refresh_token" (delete "access_token" (localStorage w)))
  /\ user (snd (restoreSession API_BASE_URL fetch cancelled w)) = user w
  /\ newUrls w (snd (restoreSession API_BASE_URL fetch cancelled w))
     = [API_BASE_URL +:+ "/api/auth/profile"; API_BASE_URL +:+ "/api/auth/refresh"].
Proof.
  intros Htoken Hfail H401 Hrefresh Hfail2.
  unfold newUrls, restoreSession, bind, getItem. rewrite Htoken. cbn [negb].
  unfold tryFinally, tryCatch, bind. unfold api_get, api_post in *.
  pose proof (apiClient_world API_BASE_URL fetch "/api/auth/profile" no_options w)
    as Hw.
  destruct (apiClient API_BASE_URL fetch "/api/auth/profile" no_options w)
    as [out w1].
  cbn in Hfail, Hw, Hfail2. subst out w1. rewrite H401. cbn [localStorage].
  rewrite Hrefresh.
  match goal with
  | |- context [apiClient ?a ?f ?e ?o ?w0] =>
      pose proof (apiClient_world a f e o w0) as Hw2;
      destruct (apiClient a f e o w0) as [out2 w2]
  end.
  cbn in Hfail2, Hw2. subst out2 w2.
  rewrite clearAuth_spec.
  unfold unlessCancelled, setLoading. cbn [sent localStorage user].
  match goal with
  | |- context [negb (cancelled ?n)] => destruct (cancelled n)
  end; cbn; rewrite <- app_assoc, drop_app_length; done.
Qed.

Lemma restoreSession_refresh_rejected_witness :
  localStorage (snd (restoreSession "" Sample.expired_for_good Scenario.never
                       (initial_world Sample.with_theme)))
  = {[ "theme" := "dark" ]}
  /\ newUrls (initial_world Sample.with_theme)
       (snd (restoreSession "" Sample.expired_for_good Scenario.never
               (initial_world Sample.with_theme)))
     = ["/api/auth/profile"; "/api/auth/refresh"].
Proof.
  destruct (restoreSession_refresh_rejected "" Sample.expired_for_good
              Scenario.never (initial_world Sample.with_theme)
              (ExApiError (ApiError.new_raw 401 (VStr "UNKNOWN") "Unauthorized"))
              (ExApiError (ApiError.new_raw 401 (VStr "UNKNOWN") "Unauthorized"))
              eq_refl eq_refl eq_refl eq_refl eq_refl)
    as (Hls & _ & Hurls).
  split; [|exact Hurls].
  etransitivity; [exact Hls|]. vm_compute. reflexivity.
Defined.

Ltac urls_done :=
  cbn [sent]; rewrite <- ?app_assoc; cbn [app];
  first [ rewrite drop_app_length | rewrite drop_all ]; cbn; auto 6.

(** X21. [restoreSession] issues at most three requests and at most one of
    them is a refresh: the addresses asked are, in order, nothing; the
    profile; the profile and the refresh; or the profile, the refresh and
    the profile again. A second refresh is never attempted. *)
Theorem restoreSession_request_budget API_BASE_URL fetch cancelled w :
  let profile := API_BASE_URL +:+ "/api/auth/profile" in
  let refresh := API_BASE_URL +:+ "/api/auth/refresh" in
  let asked := newUrls w (snd (restoreSession API_BASE_URL fetch cancelled w)) in
  asked = [] \/ asked = [profile] \/ asked = [profile; refresh]
  \/ asked = [profile; refresh; profile].
Proof.
  cbn zeta. unfold newUrls, restoreSession, bind, getItem.
  destruct (truthy (ofItem (localStorage w !! "access_token"))); cbn.
  2:{ left. by rewrite drop_all. }
  session_unfold.
  call_step.
  - repeat flag_step; try urls_done.
    all: destruct (getProp data "id"); cbn; repeat flag_step; urls_done.
  - destruct (is_401 err); cbn; [|repeat flag_step; urls_done].
    destruct (truthy (ofItem (localStorage w !! "refresh_token"))); cbn.
    2:{ repeat flag_step; urls_done. }
    clear Hs. call_step.
    2:{ repeat flag_step; urls_done. }
    destruct (Hs data "access_token" eq_refl eq_refl) as [Ha|Ha]; rewrite Ha; cbn.
    { repeat flag_step; urls_done. }
    destruct (Hs data "refresh_token" eq_refl eq_refl) as [Hr|Hr]; rewrite Hr; cbn.
    { repeat flag_step; urls_done. }
    clear Hs. call_step.
    2:{ repeat flag_step; urls_done. }
    repeat flag_step.
    all: try destruct (getProp data0 "id"); cbn; repeat flag_step; urls_done.
Qed.

(** X22. Cancellation: with a stored token, if the effect has been cleaned
    up by the time the first call settles (and stays so), [restoreSession]
    changes neither the user nor [loading], whatever the network answers.
    (Storage writes are not guarded: see X19.) *)
Theorem restoreSession_cleaned_up_keeps_state API_BASE_URL fetch cancelled w :
  truthy (ofItem (localStorage w !! "access_token")) = true ->
  (forall n, (length (sent w) < n)%nat -> cancelled n = true) ->
  user (snd (restoreSession API_BASE_URL fetch cancelled w)) = user w
  /\ loading (snd (restoreSession API_BASE_URL fetch cancelled w)) = loading w.
Proof.
  intros Htoken Hc.
  assert (H1 : forall a, cancelled (length (sent w ++ [a])) = true)
    by (intros; apply Hc; rewrite length_app; cbn; lia).
  assert (H2 : forall a b, cancelled (length ((sent w ++ [a]) ++ [b])) = true)
    by (intros; apply Hc; rewrite !length_app; cbn; lia).
  assert (H3 : forall a b c,
             cancelled (length (((sent w ++ [a]) ++ [b]) ++ [c])) = true)
    by (intros; apply Hc; rewrite !length_app; cbn; lia).
  unfold restoreSession, bind, getItem. rewrite Htoken. cbn [negb].
  session_unfold.
  call_step.
  - rewrite ?H1. cbn. rewrite ?H1. done.
  - destruct (is_401 err); cbn; [|rewrite ?H1; cbn; rewrite ?H1; done].
    destruct (truthy (ofItem (localStorage w !! "refresh_token"))); cbn.
    2:{ rewrite ?H1. done. }
    clear Hs. call_step.
    2:{ rewrite ?H2. done. }
    destruct (Hs data "access_token" eq_refl eq_refl) as [Ha|Ha]; rewrite Ha; cbn.
    { rewrite ?H2. done. }
    destruct (Hs data "refresh_token" eq_refl eq_refl) as [Hr|Hr]; rewrite Hr; cbn.
    { rewrite ?H2. done. }
    clear Hs. call_step.
    2:{ rewrite ?H3. done. }
    rewrite ?H3. cbn. rewrite ?H3. done.
Qed.

Lemma restoreSession_cleaned_up_keeps_state_witness :
  user (snd (restoreSession "" Scenario.expired_then_refreshed Scenario.always
               (initial_world Scenario.stored_session)))
  = VNull
  /\ loading (snd (restoreSession "" Scenario.expired_then_refreshed Scenario.always
                     (initial_world Scenario.stored_session)))
     = true.
Proof.
  apply (restoreSession_cleaned_up_keeps_state "" Scenario.expired_then_refreshed
           Scenario.always (initial_world Scenario.stored_session)).
  - reflexivity.
  - intros n _. reflexivity.
Defined.

Ltac token_kept Htoken :=
  first [ discriminate
        | intros _; cbn [localStorage]; exact Htoken
        | intros _; cbn [localStorage];
          by rewrite ?lookup_insert_ne, ?lookup_insert_eq by done
        | done ].

(** X23. A user is never shown over an empty credential record: whenever
    [restoreSession] changes the user, storage holds a non-empty access
    token at the end of the run. (On every path that clears storage the
    user is left as it was.) *)
Theorem restoreSession_user_implies_token API_BASE_URL fetch cancelled w :
  user (snd (restoreSession API_BASE_URL fetch cancelled w)) <> user w ->
  truthy (ofItem (localStorage (snd (restoreSession API_BASE_URL fetch cancelled w))
                    !! "access_token"))
  = true.
Proof.
  unfold restoreSession, bind, getItem.
  destruct (truthy (ofItem (localStorage w !! "access_token"))) eqn:Htoken; cbn;
    [|done].
  session_unfold.
  call_step.
  - repeat flag_step; try done.
    all: destruct (getProp data "id"); cbn; repeat flag_step; token_kept Htoken.
  - destruct (is_401 err); cbn; [|repeat flag_step; token_kept Htoken].
    destruct (truthy (ofItem (localStorage w !! "refresh_token"))); cbn.
    2:{ repeat flag_step; done. }
    clear Hs. call_step.
    2:{ repeat flag_step; done. }
    destruct (Hs data "access_token" eq_refl eq_refl) as [Ha|Ha]; rewrite Ha; cbn.
    { repeat flag_step; done. }
    destruct (Hs data "refresh_token" eq_refl eq_refl) as [Hr|Hr]; rewrite Hr; cbn.
    { repeat flag_step; done. }
    clear Hs. call_step.
    2:{ repeat flag_step; done. }
    repeat flag_step.
    all: try destruct (getProp data0 "id"); cbn; repeat flag_step.
    all: token_kept Htoken.
Qed.

Lemma restoreSession_user_implies_token_witness :
  truthy (ofItem (localStorage
                    (snd (restoreSession "" (Scenario.answer Sample.profile)
                            Scenario.never (initial_world Scenario.stored_session)))
                    !! "access_token"))
  = true.
Proof.
  apply (restoreSession_user_implies_token "" (Scenario.answer Sample.profile)
           Scenario.never (initial_world Scenario.stored_session)).
  vm_compute. discriminate.
Defined.

(** X24. When the login call itself rejects, [signIn] rejects with the
    same error and has written nothing: storage and the user are as
    before. *)
Theorem signIn_call_rejected API_BASE_URL fetch email password w err :
  fst (api_post API_BASE_URL fetch "/api/auth/login"
         (VObj [("email", VStr email); ("password", VStr password)]) w)
  = Rejected err ->
  fst (signIn API_BASE_URL fetch email password w) = Rejected err
  /\ localStorage (snd (signIn API_BASE_URL fetch email password w))
     = localStorage w
  /\ user (snd (signIn API_BASE_URL fetch email password w)) = user w.
Proof.
  intros Hfail. unfold signIn, bind. unfold api_post in *.
  match goal with
  | |- context [apiClient ?a ?f ?e ?o ?w0] =>
      pose proof (apiClient_world a f e o w0) as Hw;
      destruct (apiClient a f e o w0) as [out w1]
  end.
  cbn in Hfail, Hw. by subst out w1.
Qed.

Lemma signIn_call_rejected_witness :
  fst (signIn "" (Scenario.answer Sample.unauthorized) "a@b.com" "wrong"
         (initial_world ∅))
  = Rejected (ExApiError (ApiError.new_raw 401 (VStr "UNKNOWN") "Unauthorized"))
  /\ localStorage (snd (signIn "" (Scenario.answer Sample.unauthorized)
                          "a@b.com" "wrong" (initial_world ∅)))
     = ∅.
Proof.
  assert (Hcall :
    fst (api_post "" (Scenario.answer Sample.unauthorized) "/api/auth/login"
           (VObj [("email", VStr "a@b.com"); ("password", VStr "wrong")])
           (initial_world ∅))
    = Rejected (ExApiError (ApiError.new_raw 401 (VStr "UNKNOWN") "Unauthorized")))
    by (vm_compute; reflexivity).
  destruct (signIn_call_rejected "" (Scenario.answer Sample.unauthorized)
              "a@b.com" "wrong" (initial_world ∅) _ Hcall)
    as (Hout & Hls & _).
  split; [exact Hout|exact Hls].
Defined.

(** X25. [signIn] is not atomic: when the login call resolves with a
    payload whose [user] property is missing or [null], [signIn] rejects
    with a [TypeError] after it has already overwritten both token keys;
    [user_email] and the session user are not touched. *)
Theorem signIn_without_user API_BASE_URL fetch email password w data u :
  fst (api_post API_BASE_URL fetch "/api/auth/login"
         (VObj [("email", VStr email); ("password", VStr password)]) w)
  = Resolved data ->
  getProp data "user" = inr u ->
  u = VUndefined \/ u = VNull ->
  fst (signIn API_BASE_URL fetch email password w) = Rejected (ExOther TypeError)
  /\ localStorage (snd (signIn API_BASE_URL fetch email password w))
     = <["refresh_token" := "undefined"]>
         (<["access_token" := "undefined"]> (localStorage w))
  /\ user (snd (signIn API_BASE_URL fetch email password w)) = user w.
Proof.
  intros Hok Huser Hu. unfold signIn, bind. unfold api_post in *.
  match goal with
  | |- context [apiClient ?a ?f ?e ?o ?w0] =>
      pose proof (apiClient_world a f e o w0) as Hw;
      pose proof (apiClient_resolved_no_snake a f e o w0) as Hs;
      destruct (apiClient a f e o w0) as [out w1]
  end.
  cbn in Hok, Hw, Hs. subst out w1.
  destruct (Hs data "access_token" eq_refl eq_refl) as [Ha|Ha];
    [destruct data; discriminate|].
  destruct (Hs data "refresh_token" eq_refl eq_refl) as [Hr|Hr];
    [destruct data; discriminate|].
  rewrite Ha. cbn. rewrite Hr. cbn. rewrite Huser. cbn.
  by destruct Hu as [-> | ->].
Qed.

Lemma signIn_without_user_witness :
  fst (signIn "" (Scenario.answer Sample.login_without_user) "a@b.com" "secret"
         (initial_world ∅))
  = Rejected (ExOther TypeError)
  /\ localStorage (snd (signIn "" (Scenario.answer Sample.login_without_user)
                          "a@b.com" "secret" (initial_world ∅)))
     = <["refresh_token" := "undefined"]> (<["access_token" := "undefined"]> ∅).
Proof.
  assert (Hcall :
    fst (api_post "" (Scenario.answer Sample.login_without_user) "/api/auth/login"
           (VObj [("email", VStr "a@b.com"); ("password", VStr "secret")])
           (initial_world ∅))
    = Resolved (VObj [("accessToken", VStr "new-access");
                      ("refreshToken", VStr "new-refresh")]))
    by (vm_compute; reflexivity).
  destruct (signIn_without_user "" (Scenario.answer Sample.login_without_user)
              "a@b.com" "secret" (initial_world ∅) _ VUndefined
              Hcall eq_refl (or_introl eq_refl))
    as (Hout & Hls & _).
  split; [exact Hout|exact Hls].
Defined.



(** X27. [signOut] sends one request, a [POST] without body to the logout
    endpoint, carrying the bearer header of the token that is about to be
    removed; it removes the three credential keys and leaves every other
    storage key as it was. *)
Theorem signOut_request_and_storage API_BASE_URL fetch w :
  sent (snd (signOut API_BASE_URL fetch w))
  = sent w
    ++ [outgoing API_BASE_URL "/api/auth/logout"
          {| opt_method := Some POST; opt_body := VUndefined; opt_headers := None |}
          (localStorage w)]
  /\ localStorage (snd (signOut API_BASE_URL fetch w))
     = delete "user_email"
         (delete "refresh_token" (delete "access_token" (localStorage w)))
  /\ forall k, k <> "access_token" -> k <> "refresh_token" -> k <> "user_email" ->
       localStorage (snd (signOut API_BASE_URL fetch w)) !! k = localStorage w !! k.
Proof.
  unfold signOut, api_post, bind, tryCatch, ret.
  match goal with
  | |- context [apiClient ?a ?f ?e ?o ?w0] =>
      pose proof (apiClient_world a f e o w0) as Hw;
      destruct (apiClient a f e o w0) as [[v|err] w1]
  end.
  all: cbn in Hw; subst w1; rewrite clearAuth_spec; cbn.
  all: split_and!; try reflexivity.
  all: intros k H1 H2 H3; by rewrite !lookup_delete_ne by done.
Qed.

(* ===================================================================== *)
(** * Properties of the resource wrappers *)
(* ===================================================================== *)

Lemma append_empty_r (s : string) : s +:+ "" = s.
Proof.
  induction s as [|c s IH]; [done|].
  change (String c s +:+ "") with (String c (s +:+ "")). by rewrite IH.
Qed.

Lemma occurrences_app c s1 s2 :
  occurrences c (s1 +:+ s2) = (occurrences c s1 + occurrences c s2)%nat.
Proof.
  induction s1 as [|d s1 IH]; [done|].
  change (String d s1 +:+ s2) with (String d (s1 +:+ s2)).
  cbn [occurrences]. rewrite IH. lia.
Qed.

(** The serializer writes no separator of its own accord inside a name or
    a value. *)
Lemma encodeByte_separators d :
  occurrences "=" (URLSearchParams.encodeByte d) = 0%nat
  /\ occurrences "&" (URLSearchParams.encodeByte d) = 0%nat
  /\ occurrences "?" (URLSearchParams.encodeByte d) = 0%nat.
Proof. ascii_cases d; repeat split. Qed.

Lemma encode_separators s :
  occurrences "=" (URLSearchParams.encode s) = 0%nat
  /\ occurrences "&" (URLSearchParams.encode s) = 0%nat
  /\ occurrences "?" (URLSearchParams.encode s) = 0%nat.
Proof.
  induction s as [|d s (IH1 & IH2 & IH3)]; [done|]. cbn [URLSearchParams.encode].
  rewrite !occurrences_app, IH1, IH2, IH3.
  by destruct (encodeByte_separators d) as (-> & -> & ->).
Qed.

(** X28. [transactionsApi.list] with no parameter that passes its
    truthiness test (each string absent or empty, each number absent or 0)
    asks for the bare address, without a question mark: in particular page
    0 and page size 0 cannot be asked for. *)
Theorem transactionsApi_list_bare API_BASE_URL fetch portfolioId params w :
  given [ofString (params ≫= holdingId); ofString (params ≫= type);
         ofString (params ≫= startDate); ofString (params ≫= endDate);
         ofNumber (params ≫= page); ofNumber (params ≫= pageSize)] = 0%nat ->
  newUrls w (snd (transactionsApi_list API_BASE_URL fetch portfolioId params w))
  = [API_BASE_URL +:+ "/api/portfolios/" +:+ portfolioId +:+ "/transactions"].
Proof.
  unfold given, newUrls, transactionsApi_list, setIfTruthy, api_get.
  rewrite apiClient_world. cbn [sent]. rewrite drop_app_length.
  cbn [List.filter].
  destruct (truthy (ofString (params ≫= holdingId))),
    (truthy (ofString (params ≫= type))),
    (truthy (ofString (params ≫= startDate))),
    (truthy (ofString (params ≫= endDate))),
    (truthy (ofNumber (params ≫= page))),
    (truthy (ofNumber (params ≫= pageSize))); cbn; try discriminate.
  intros _. by rewrite append_empty_r.
Qed.

Lemma transactionsApi_list_bare_witness :
  newUrls (initial_world ∅)
    (snd (transactionsApi_list "" (Scenario.answer Scenario.bare) "p1"
            (Some {| holdingId := Some ""; type := None; startDate := None;
                     endDate := None; page := Some 0; pageSize := None |})
            (initial_world ∅)))
  = ["/api/portfolios/p1/transactions"].
Proof.
  apply (transactionsApi_list_bare "" (Scenario.answer Scenario.bare) "p1"
           (Some {| holdingId := Some ""; type := None; startDate := None;
                    endDate := None; page := Some 0; pageSize := None |})
           (initial_world ∅)).
  reflexivity.
Defined.

Lemma truthy_contains a c s b rest :
  truthy (VStr ((a +:+ String c s +:+ b) +:+ rest)) = true.
Proof. destruct a; cbn; by rewrite bool_decide_eq_false_2. Qed.

Lemma truthy_contains_last a c s b : truthy (VStr (a +:+ String c s +:+ b)) = true.
Proof. destruct a; cbn; by rewrite bool_decide_eq_false_2. Qed.

Ltac build_query :=
  unfold URLSearchParams.empty;
  repeat (cbn [URLSearchParams.set];
          rewrite ?bool_decide_eq_false_2 by discriminate);
  unfold URLSearchParams.toString; cbn [map String.concat];
  unfold querySuffix;
  rewrite ?truthy_contains, ?truthy_contains_last.

Ltac count_query :=
  repeat first
    [ rewrite occurrences_app
    | match goal with
      | |- context [occurrences ?c (URLSearchParams.encode ?s)] =>
          first [ rewrite (proj1 (encode_separators s))
                | rewrite (proj1 (proj2 (encode_separators s)))
                | rewrite (proj2 (proj2 (encode_separators s))) ]
      end
    | progress cbn [occurrences] ];
  vm_compute; reflexivity.

(** X29. The query of [marketDataApi.getHistory] cannot be broken by what
    the caller passes: whatever characters [source], [from] and [to]
    contain, the part of the address after the symbol has one [=] per
    argument that is given (truthy), one [&] between two of them and one
    [?] in front, and is empty when none is given. *)
Theorem marketDataApi_getHistory_query API_BASE_URL fetch symbol params w :
  exists suffix,
    newUrls w (snd (marketDataApi_getHistory API_BASE_URL fetch symbol params w))
    = [API_BASE_URL +:+ "/api/market/history/" +:+ symbol +:+ suffix]
    /\ occurrences "="%char suffix
       = given [ofString (params ≫= source); ofString (params ≫= from);
                ofString (params ≫= to)]
    /\ occurrences "&"%char suffix
       = pred (given [ofString (params ≫= source); ofString (params ≫= from);
                      ofString (params ≫= to)])
    /\ occurrences "?"%char suffix
       = Nat.min 1 (given [ofString (params ≫= source); ofString (params ≫= from);
                           ofString (params ≫= to)])
    /\ (given [ofString (params ≫= source); ofString (params ≫= from);
               ofString (params ≫= to)] = 0%nat -> suffix = "").
Proof.
  unfold given, newUrls, marketDataApi_getHistory, setIfTruthy, api_get.
  rewrite apiClient_world. cbn [sent]. rewrite drop_app_length.
  cbn [List.filter].
  eexists. split; [reflexivity|].
  destruct (truthy (ofString (params ≫= source))),
    (truthy (ofString (params ≫= from))),
    (truthy (ofString (params ≫= to))).
  all: build_query.
  all: split_and!; try discriminate; try reflexivity; count_query.
Qed.

(** X30. [holdingsApi.list] sends the [active] filter whenever it is
    given, also when it is [false] (it is tested against [undefined], not
    for truthiness): without an asset class the address ends in
    [?active=true] or [?active=false]. *)
Theorem holdingsApi_list_active API_BASE_URL fetch portfolioId
    (params : option HoldingQuery) (b : bool) w :
  truthy (ofString (params ≫= assetClass)) = false ->
  params ≫= active = Some b ->
  newUrls w (snd (holdingsApi_list API_BASE_URL fetch portfolioId params w))
  = [API_BASE_URL +:+ "/api/portfolios/" +:+ portfolioId +:+ "/holdings"
       +:+ (if b then "?active=true" else "?active=false")].
Proof.
  intros Hclass Hactive.
  unfold newUrls, holdingsApi_list, setIfTruthy, api_get.
  rewrite apiClient_world. cbn [sent]. rewrite drop_app_length.
  rewrite Hclass, Hactive. by destruct b.
Qed.

Lemma holdingsApi_list_active_witness :
  newUrls (initial_world ∅)
    (snd (holdingsApi_list "" (Scenario.answer Scenario.bare) "p1"
            (Some {| assetClass := Some ""; active := Some false |})
            (initial_world ∅)))
  = ["/api/portfolios/p1/holdings?active=false"].
Proof.
  apply (holdingsApi_list_active "" (Scenario.answer Scenario.bare) "p1"
           (Some {| assetClass := Some ""; active := Some false |}) false
           (initial_world ∅)); reflexivity.
Defined.
